(** * Streaming transcoder of claude-worker-proxy (src/openai.ts, src/utils.ts)

    Shallow embedding of the OpenAI-to-Claude streaming path:
    [processProviderStream] (utils.ts) driven by the [processLine]
    closure of [convertStreamResponse] (openai.ts), together with the event
    builders [processTextPart], [processToolUsePart], [sendMessageStart] and
    [sendMessageStop].

    Modelling choices:
    - JS strings are [String.string]; the bytes read from the body are
      taken after [TextDecoder] decoding, so one read is one decoded string.
    - Outbound events are kept as structured values ([Event]); the wire
      text [event: ...\ndata: ...] is a rendering of them.
    - [JSON.parse] is a parameter: [parse_chunk] for the stream payload
      (read at the fields the code reads), [parse_json] for tool arguments;
      [None] means that [JSON.parse] throws.
    - [Math.random] (behind [generateId]) is a parameter [random_id] indexed
      by a counter threaded through the global state.
    - A thrown exception is the outcome flag [raised]. *)

From Stdlib Require Import String Ascii List Bool Arith Lia ZArith NArith.
Import ListNotations.
Open Scope string_scope.
Open Scope list_scope.
Open Scope nat_scope.
Set Warnings "-register-all -notation-for-abbreviation".

(* ------------------------------------------------------------------ *)
(** ** JS string helpers *)

Definition nl : ascii := "010"%char.
Definition dq : ascii := "034"%char.

(** [String.prototype.split('\n')]: always a non-empty list. *)
Fixpoint split_nl (s : string) : list string :=
  match s with
  | EmptyString => [EmptyString]
  | String c s' =>
      let r := split_nl s' in
      if Ascii.eqb c nl then EmptyString :: r
      else match r with
           | [] => [String c EmptyString]
           | h :: t => String c h :: t
           end
  end.

(** Characters removed by [String.prototype.trim] (code units 0..255). *)
Definition js_whitespace (c : ascii) : bool :=
  let n := nat_of_ascii c in
  ((9 <=? n) && (n <=? 13)) || (n =? 32) || (n =? 160).

(** [!s.trim()]: the string is empty after trimming. *)
Fixpoint is_blank (s : string) : bool :=
  match s with
  | EmptyString => true
  | String c s' => js_whitespace c && is_blank s'
  end.

(** [s.slice(n)] for a non-negative [n]. *)
Fixpoint slice (n : nat) (s : string) : string :=
  match n, s with
  | O, _ => s
  | S _, EmptyString => EmptyString
  | S n', String _ s' => slice n' s'
  end.

(** [s.startsWith(p)] *)
Definition startsWith (s p : string) : bool := String.prefix p s.

(** JS truthiness of an optional string field: present and non-empty. *)
Definition truthy_str (o : option string) : option string :=
  match o with
  | Some EmptyString => None
  | Some s => Some s
  | None => None
  end.

(* ------------------------------------------------------------------ *)
(** ** JSON values and [JSON.stringify] *)

Inductive json : Type :=
| JNull
| JBool (b : bool)
| JNum (z : Z)
| JStr (s : string)
| JArr (l : list json)
| JObj (kvs : list (string * json)).

Definition digit_char (d : N) : ascii := ascii_of_N (48 + d).

Fixpoint digits_fuel (fuel : nat) (n : N) (acc : string) : string :=
  match fuel with
  | O => acc
  | S f =>
      let acc' := String (digit_char (N.modulo n 10)) acc in
      let q := N.div n 10 in
      if N.eqb q 0 then acc' else digits_fuel f q acc'
  end.

Definition N_to_string (n : N) : string := digits_fuel (S (N.size_nat n)) n EmptyString.

Definition Z_to_string (z : Z) : string :=
  match z with
  | Z.neg p => String "-" (N_to_string (Npos p))
  | _ => N_to_string (Z.to_N z)
  end.

Definition hex_char (d : nat) : ascii :=
  if d <? 10 then ascii_of_nat (48 + d) else ascii_of_nat (87 + d).

(** Escaping of one character inside a JSON string literal. *)
Definition escape_char (c : ascii) : string :=
  let n := nat_of_ascii c in
  if n =? 34 then String "\" (String dq EmptyString)
  else if n =? 92 then "\\"
  else if n =? 8 then "\b"
  else if n =? 12 then "\f"
  else if n =? 10 then "\n"
  else if n =? 13 then "\r"
  else if n =? 9 then "\t"
  else if n <? 32 then ("\u00" ++ String (hex_char (n / 16)) (String (hex_char (n mod 16)) EmptyString))%string
  else String c EmptyString.

Fixpoint escape (s : string) : string :=
  match s with
  | EmptyString => EmptyString
  | String c s' => (escape_char c ++ escape s')%string
  end.

Definition quote (s : string) : string := String dq (escape s ++ String dq EmptyString)%string.

Fixpoint stringify (v : json) : string :=
  match v with
  | JNull => "null"
  | JBool true => "true"
  | JBool false => "false"
  | JNum z => Z_to_string z
  | JStr s => quote s
  | JArr l =>
      let fix items (l : list json) : string :=
        match l with
        | [] => EmptyString
        | [x] => stringify x
        | x :: r => (stringify x ++ "," ++ items r)%string
        end in
      ("[" ++ items l ++ "]")%string
  | JObj kvs =>
      let fix members (kvs : list (string * json)) : string :=
        match kvs with
        | [] => EmptyString
        | [(k, x)] => (quote k ++ ":" ++ stringify x)%string
        | (k, x) :: r => (quote k ++ ":" ++ stringify x ++ "," ++ members r)%string
        end in
      ("{" ++ members kvs ++ "}")%string
  end.

(* ------------------------------------------------------------------ *)
(** ** Outbound events (utils.ts: sendMessageStart, processTextPart, ...) *)

Record Usage := { input_tokens : nat; output_tokens : nat }.

(** [content_block] of a [content_block_start] payload. *)
Inductive ContentBlock : Type :=
| CBText (text : string)
| CBToolUse (id name : string) (input : json).

(** [delta] of a [content_block_delta] payload. *)
Inductive BlockDelta : Type :=
| TextDelta (text : string)
| InputJsonDelta (partial_json : string).

Inductive Event : Type :=
| MessageStart (id : string)
| ContentBlockStart (index : nat) (cb : ContentBlock)
| ContentBlockDelta (index : nat) (d : BlockDelta)
| ContentBlockStop (index : nat)
| MessageStop (usage : option Usage).

(** The heap seen by a stream: the variables captured by the
    [processLine] closure ([captured]) and the state of the global
    random generator behind [generateId] ([seed]). *)
Record Heap (S : Type) := mkHeap { seed : nat; captured : S }.
Arguments mkHeap {S}.
Arguments seed {S}.
Arguments captured {S}.

Section Random.

(** [Math.random().toString(36).substring(2)] for the [n]-th draw. *)
Variable random_id : nat -> string.

Definition generateId (rng : nat) : nat * string := (S rng, random_id rng).

Definition sendMessageStart (rng : nat) : nat * Event :=
  let (rng', id) := generateId rng in (rng', MessageStart id).

Definition sendMessageStop (usage : option Usage) : Event := MessageStop usage.

Definition processTextPart (text : string) (index : nat) : list Event :=
  [ContentBlockStart index (CBText EmptyString);
   ContentBlockDelta index (TextDelta text);
   ContentBlockStop index].

(** [processToolUsePart({name, args}, index)] *)
Definition processToolUsePart (rng : nat) (name : string) (args : json) (index : nat)
  : nat * list Event :=
  let (rng', toolUseId) := generateId rng in
  (rng',
   [ContentBlockStart index (CBToolUse toolUseId name (JObj []));
    ContentBlockDelta index (InputJsonDelta (stringify args));
    ContentBlockStop index]).

End Random.

(* ------------------------------------------------------------------ *)
(** ** The stream driver [processProviderStream] (utils.ts) *)

(** The original Claude request, read only at [messages]. *)
Record ClaudeRequest (Msg : Type) := { messages : list Msg }.
Arguments messages {Msg}.

(** The token estimator, an external capability. *)
Record Estimator (Msg : Type) := {
  estimate : string -> nat;
  estimateMessages : list Msg -> nat }.
Arguments estimate {Msg}.
Arguments estimateMessages {Msg}.

(** Value returned by [processLine]. *)
Record LineResult := {
  events : list Event;
  textBlockIndex : nat;
  toolUseBlockIndex : nat;
  outputTokens : option nat }.

(** A call of [processLine]: it throws, returns [null], or a result. *)
Inductive LineOutcome : Type :=
| LineThrows
| LineNull
| LineOk (r : LineResult).

(** How the reads of [reader.read()] end after the chunks: [done], or a
    rejected read. *)
Inductive ReadEnd : Type := ReadDone | ReadFails.

Record Body := { chunks : list string; read_end : ReadEnd }.

(** Local variables of [start(controller)] plus the enqueued events. *)
Record PState (S : Type) := {
  buffer : string;
  textIdx : nat;
  toolIdx : nat;
  totalOutputTokens : nat;
  heap : Heap S;
  out : list Event }.
Arguments buffer {S}.
Arguments textIdx {S}.
Arguments toolIdx {S}.
Arguments totalOutputTokens {S}.
Arguments heap {S}.
Arguments out {S}.

(** Result of the stream: the events enqueued on the controller and whether
    [start] ends by throwing. *)
Record StreamOutcome := { emitted : list Event; raised : bool }.

Section Transcoder.

Variable random_id : nat -> string.
Variable S : Type.
Variable Msg : Type.
Variable processLine : Heap S -> string -> nat -> nat -> Heap S * LineOutcome.

(** [if (result.outputTokens) totalOutputTokens = result.outputTokens] *)
Definition update_total (total : nat) (o : option nat) : nat :=
  match o with
  | Some n => if n =? 0 then total else n
  | None => total
  end.

(** One iteration of [for (const line of lines)]; [true] when it throws. *)
Definition process_line (st : PState S) (line : string) : PState S * bool :=
  if is_blank line || negb (startsWith line "data: ") then (st, false) else
  let jsonStr := slice 6 line in
  if String.eqb jsonStr "[DONE]" then (st, false) else
  match processLine (heap st) jsonStr (textIdx st) (toolIdx st) with
  | (h, LineThrows) =>
      ({| buffer := buffer st; textIdx := textIdx st; toolIdx := toolIdx st;
          totalOutputTokens := totalOutputTokens st; heap := h; out := out st |}, true)
  | (h, LineNull) =>
      ({| buffer := buffer st; textIdx := textIdx st; toolIdx := toolIdx st;
          totalOutputTokens := totalOutputTokens st; heap := h; out := out st |}, false)
  | (h, LineOk r) =>
      ({| buffer := buffer st;
          textIdx := textBlockIndex r;
          toolIdx := toolUseBlockIndex r;
          totalOutputTokens := update_total (totalOutputTokens st) (outputTokens r);
          heap := h;
          out := out st ++ events r |}, false)
  end.

Fixpoint process_lines (st : PState S) (lines : list string) : PState S * bool :=
  match lines with
  | [] => (st, false)
  | l :: ls =>
      let (st', thrown) := process_line st l in
      if thrown then (st', true) else process_lines st' ls
  end.

(** [lines.pop() || ''] *)
Definition pop (lines : list string) : list string * string :=
  (removelast lines, last lines EmptyString).

(** Body of [while (true)] for one chunk [value]: [buffer] is replaced by
    the held-back last line before the complete lines are processed. *)
Definition with_buffer (b : string) (st : PState S) : PState S :=
  {| buffer := b; textIdx := textIdx st; toolIdx := toolIdx st;
     totalOutputTokens := totalOutputTokens st; heap := heap st; out := out st |}.

Definition read_chunk (st : PState S) (value : string) : PState S * bool :=
  let chunk := (buffer st ++ value)%string in
  let (lines, rest) := pop (split_nl chunk) in
  process_lines (with_buffer rest st) lines.

Fixpoint read_loop (st : PState S) (values : list string) : PState S * bool :=
  match values with
  | [] => (st, false)
  | v :: vs =>
      let (st', thrown) := read_chunk st v in
      if thrown then (st', true) else read_loop st' vs
  end.

(** The [finally] block: flush of the remainder, usage, [message_stop].
    When the flush throws, the rest of the block is skipped. *)
Definition finally_block (originalClaudeRequest : option (ClaudeRequest Msg))
  (tokenEstimator : option (Estimator Msg)) (st : PState S) (raised_in_try : bool)
  : StreamOutcome :=
  let flushed :=
    if negb (is_blank (buffer st)) then
      match processLine (heap st) (slice 6 (buffer st)) (textIdx st) (toolIdx st) with
      | (_, LineThrows) => None
      | (_, LineNull) => Some (totalOutputTokens st, out st)
      | (_, LineOk r) =>
          Some (update_total (totalOutputTokens st) (outputTokens r), out st ++ events r)
      end
    else Some (totalOutputTokens st, out st) in
  match flushed with
  | None => {| emitted := out st; raised := true |}
  | Some (total, evs) =>
      let usage :=
        match originalClaudeRequest, tokenEstimator with
        | Some req, Some est =>
            Some {| input_tokens := estimateMessages est (messages req);
                    output_tokens := total |}
        | _, _ => None
        end in
      {| emitted := evs ++ [sendMessageStop usage]; raised := raised_in_try |}
  end.

(** Statement helper: the flush of the remainder in the [finally] block
    throws, which skips [sendMessageStop]. *)
Definition flush_throws (st : PState S) : bool :=
  negb (is_blank (buffer st)) &&
  match snd (processLine (heap st) (slice 6 (buffer st)) (textIdx st) (toolIdx st)) with
  | LineThrows => true
  | _ => false
  end.

(** The state right after [sendMessageStart(controller)]. *)
Definition init_state (h0 : Heap S) : PState S :=
  let (rng1, start_ev) := sendMessageStart random_id (seed h0) in
  {| buffer := EmptyString; textIdx := 0; toolIdx := 0;
     totalOutputTokens := 0; heap := mkHeap rng1 (captured h0);
     out := [start_ev] |}.

Definition processProviderStream (originalClaudeRequest : option (ClaudeRequest Msg))
  (tokenEstimator : option (Estimator Msg)) (body : option Body) (h0 : Heap S)
  : StreamOutcome :=
  match body with
  | None => {| emitted := []; raised := false |}
  | Some b =>
      let (st1, thrown) := read_loop (init_state h0) (chunks b) in
      let raised_in_try :=
        thrown || match read_end b with ReadFails => true | ReadDone => false end in
      finally_block originalClaudeRequest tokenEstimator st1 raised_in_try
  end.

End Transcoder.

(* ------------------------------------------------------------------ *)
(** ** OpenAI stream chunks and [convertStreamResponse] (openai.ts) *)

Record OpenAIFunction := { fn_name : option string; fn_arguments : option string }.
Record OpenAIToolCall := { tc_function : option OpenAIFunction }.
Record OpenAIDelta := { content : option string; tool_calls : option (list OpenAIToolCall) }.
Record OpenAIChoice := { delta : option OpenAIDelta }.
Record OpenAIStreamResponse := { choices : option (list OpenAIChoice) }.

Section OpenAI.

Variable random_id : nat -> string.
Variable Msg : Type.
(** [JSON.parse(jsonStr) as types.OpenAIStreamResponse]; [None]: it throws. *)
Variable parse_chunk : string -> option OpenAIStreamResponse.
(** [JSON.parse] on a tool-call arguments string; [None]: it throws. *)
Variable parse_json : string -> option json.
(** [this.tokenEstimator] *)
Variable tokenEstimator : Estimator Msg.

(** Modelled from the spec: [safeJsonParse] of token-estimator.ts (not in
    the sources): unparsable argument text becomes the empty object. *)
Definition safeJsonParse (s : string) : json :=
  match parse_json s with
  | Some v => v
  | None => JObj []
  end.

(** [toolCall.function?.name && toolCall.function?.arguments] *)
Definition actionable_fn (tc : OpenAIToolCall) : option (string * string) :=
  match tc_function tc with
  | Some f =>
      match truthy_str (fn_name f), truthy_str (fn_arguments f) with
      | Some name, Some args => Some (name, args)
      | _, _ => None
      end
  | None => None
  end.

(** [for (const toolCall of delta.tool_calls)]: the heap carries the
    random generator and [accumulatedOutputTokens]. *)
Fixpoint process_tool_calls (h : Heap nat) (currentToolIndex : nat)
  (tcs : list OpenAIToolCall) : Heap nat * nat * list Event :=
  match tcs with
  | [] => (h, currentToolIndex, [])
  | tc :: rest =>
      match actionable_fn tc with
      | Some (name, arguments) =>
          let toolArgs := safeJsonParse arguments in
          let (rng', evs) := processToolUsePart random_id (seed h) name toolArgs currentToolIndex in
          let acc' := captured h + estimate tokenEstimator name
                      + estimate tokenEstimator (stringify toolArgs) in
          let '(h'', idx'', evs') :=
            process_tool_calls (mkHeap rng' acc') (S currentToolIndex) rest in
          (h'', idx'', evs ++ evs')
      | None => process_tool_calls h currentToolIndex rest
      end
  end.

(** The [processLine] closure of [convertStreamResponse]. *)
Definition openai_processLine (h : Heap nat) (jsonStr : string)
  (textBlockIndex0 toolUseBlockIndex0 : nat) : Heap nat * LineOutcome :=
  match parse_chunk jsonStr with
  | None => (h, LineThrows)
  | Some openaiData =>
      match choices openaiData with
      | None | Some [] => (h, LineNull)
      | Some (choice :: _) =>
          match delta choice with
          | None => (h, LineThrows)  (* [delta.content] of undefined *)
          | Some d =>
              let '(h1, currentTextIndex, evs1) :=
                match truthy_str (content d) with
                | Some c =>
                    (mkHeap (seed h) (captured h + estimate tokenEstimator c),
                     S textBlockIndex0, processTextPart c textBlockIndex0)
                | None => (h, textBlockIndex0, [])
                end in
              let '(h2, currentToolIndex, evs2) :=
                match tool_calls d with
                | Some tcs => process_tool_calls h1 toolUseBlockIndex0 tcs
                | None => (h1, toolUseBlockIndex0, [])
                end in
              (h2, LineOk {| events := evs1 ++ evs2;
                             textBlockIndex := currentTextIndex;
                             toolUseBlockIndex := currentToolIndex;
                             outputTokens := Some (captured h2) |})
          end
      end
  end.

(** [convertStreamResponse]: [accumulatedOutputTokens] starts at 0; [rng0]
    is the state of the random generator when the stream starts. *)
Definition convertStreamResponse (originalClaudeRequest : option (ClaudeRequest Msg))
  (body : option Body) (rng0 : nat) : StreamOutcome :=
  processProviderStream random_id nat Msg openai_processLine
    originalClaudeRequest (Some tokenEstimator) body (mkHeap rng0 0).

End OpenAI.

(* ------------------------------------------------------------------ *)
(** ** Properties used to state the claims *)

(** A content block emitted as a start/delta/stop triple. *)
Definition triple (i : nat) (cb : ContentBlock) (d : BlockDelta) : list Event :=
  [ContentBlockStart i cb; ContentBlockDelta i d; ContentBlockStop i].

(** No line break in a string. *)
Fixpoint no_newline (s : string) : bool :=
  match s with
  | EmptyString => true
  | String c s' => negb (Ascii.eqb c nl) && no_newline s'
  end.

(** The chunks of a body read as one single chunk. *)
Fixpoint concat_chunks (cs : list string) : string :=
  match cs with
  | [] => EmptyString
  | c :: r => (c ++ concat_chunks r)%string
  end.

(** A sequence of such triples. *)
Inductive blocks : list Event -> Prop :=
| blocks_nil : blocks []
| blocks_cons i cb d r : blocks r -> blocks (triple i cb d ++ r).

(** Sum of the estimates of the emitted content: the text of text deltas,
    the name of tool_use blocks and the [partial_json] of their deltas. *)
Fixpoint tokens_of_events {Msg} (est : Estimator Msg) (evs : list Event) : nat :=
  match evs with
  | [] => 0
  | ContentBlockDelta _ (TextDelta t) :: r => estimate est t + tokens_of_events est r
  | ContentBlockStart _ (CBToolUse _ name _) :: r => estimate est name + tokens_of_events est r
  | ContentBlockDelta _ (InputJsonDelta p) :: r => estimate est p + tokens_of_events est r
  | _ :: r => tokens_of_events est r
  end.

(** Invariant of the OpenAI stream state: the enqueued events are one
    [message_start] followed by block triples, and [totalOutputTokens] is
    the closure's [accumulatedOutputTokens], the estimate of the content
    enqueued so far. *)
Definition stream_inv {Msg} (est : Estimator Msg) (st : PState nat) : Prop :=
  (exists id T, out st = MessageStart id :: T /\ blocks T) /\
  totalOutputTokens st = captured (heap st) /\
  captured (heap st) = tokens_of_events est (out st).

(** The usage the [finally] block computes from a total. *)
Definition usage_for {Msg} (est : Estimator Msg) (req : option (ClaudeRequest Msg))
  (total : nat) : option Usage :=
  match req with
  | Some r => Some {| input_tokens := estimateMessages est (messages r); output_tokens := total |}
  | None => None
  end.

(** The outcome with the usage of [message_stop] removed. *)
Definition drop_usage_event (e : Event) : Event :=
  match e with
  | MessageStop _ => MessageStop None
  | _ => e
  end.

Definition drop_usage (o : StreamOutcome) : StreamOutcome :=
  {| emitted := map drop_usage_event (emitted o); raised := raised o |}.

(* ------------------------------------------------------------------ *)
(** ** A concrete [JSON.parse] for examples

    [json_parse_table tbl s] parses exactly the texts [stringify v] of the
    values [v] of [tbl] (to [v]) and throws on every other text; it agrees
    with [JSON.parse] on every text used below. *)

Definition json_parse_table (tbl : list json) (s : string) : option json :=
  find (fun v => String.eqb (stringify v) s) tbl.

Definition field (k : string) (v : json) : option json :=
  match v with
  | JObj kvs =>
      match find (fun kv => String.eqb (fst kv) k) kvs with
      | Some (_, x) => Some x
      | None => None
      end
  | _ => None
  end.

Definition str_field (k : string) (v : json) : option string :=
  match field k v with Some (JStr s) => Some s | _ => None end.

Definition decode_tool_call (v : json) : OpenAIToolCall :=
  {| tc_function :=
       match field "function" v with
       | Some f => Some {| fn_name := str_field "name" f; fn_arguments := str_field "arguments" f |}
       | None => None
       end |}.

Definition decode_choice (v : json) : OpenAIChoice :=
  {| delta :=
       match field "delta" v with
       | Some d =>
           Some {| content := str_field "content" d;
                   tool_calls :=
                     match field "tool_calls" d with
                     | Some (JArr l) => Some (map decode_tool_call l)
                     | _ => None
                     end |}
       | None => None
       end |}.

Definition decode_chunk (v : json) : OpenAIStreamResponse :=
  {| choices := match field "choices" v with
                | Some (JArr l) => Some (map decode_choice l)
                | _ => None
                end |}.

Definition example_parse_chunk (tbl : list json) (s : string) : option OpenAIStreamResponse :=
  option_map decode_chunk (json_parse_table tbl s).

(** [{"choices":[{"delta":{"content":"Hi"}}]}] *)
Definition hi_chunk : json :=
  JObj [("choices", JArr [JObj [("delta", JObj [("content", JStr "Hi")])]])].

(** A chunk with the text [A] and one call of [lookup] with arguments
    [{q: x}] as a JSON text. *)
Definition q_args : string := stringify (JObj [("q", JStr "x")]).

Definition mixed_chunk : json :=
  JObj [("choices", JArr [JObj [("delta", JObj [("content", JStr "A");
    ("tool_calls", JArr [JObj [("function", JObj [("name", JStr "lookup");
                                                   ("arguments", JStr q_args)])]])])]])].

Definition bad_args_chunk : json :=
  JObj [("choices", JArr [JObj [("delta", JObj [
    ("tool_calls", JArr [JObj [("function", JObj [("name", JStr "lookup");
                                                   ("arguments", JStr "not json")])]])])]])].

Definition example_chunks : list json := [hi_chunk; mixed_chunk; bad_args_chunk].

Definition ex_parse_chunk : string -> option OpenAIStreamResponse := example_parse_chunk example_chunks.
Definition ex_parse_json : string -> option json := json_parse_table [JObj [("q", JStr "x")]].
Definition ex_random_id (n : nat) : string := String.append "id" (N_to_string (N.of_nat n)).
Definition ex_estimator : Estimator nat :=
  {| estimate := fun s => String.length s; estimateMessages := fun ms => length ms |}.

(** One line [data: <payload>] with its newline. *)
Definition data_line (payload : string) : string :=
  String.append "data: " (String.append payload (String nl EmptyString)).

Definition ex_convert (req : option (ClaudeRequest nat)) (cs : list string) : StreamOutcome :=
  convertStreamResponse ex_random_id nat ex_parse_chunk ex_parse_json ex_estimator req
    (Some {| chunks := cs; read_end := ReadDone |}) 0.

(* ------------------------------------------------------------------ *)
(** ** Further definitions of the source *)

(** [typeof v === 'object']: objects, arrays and [null]. *)
Definition is_object (v : json) : bool :=
  match v with JNull | JArr _ | JObj _ => true | _ => false end.

(** [Array.isArray(v)] *)
Definition is_array (v : json) : bool :=
  match v with JArr _ => true | _ => false end.

(** [cleaned.type === 'string'] on the current members. *)
Definition type_is_string (kvs : list (string * json)) : bool :=
  match field "type" (JObj kvs) with
  | Some (JStr s) => String.eqb s "string"
  | _ => false
  end.

Inductive KeyAction := KDrop | KKeep | KClean.

(** The branches of the [for (const key in cleaned)] body for [key] with
    value [v]: [delete], leave as is, or [cleanJsonSchema] the value. *)
Definition key_action (typeIsString : bool) (key : string) (v : json) : KeyAction :=
  if String.eqb key "$schema" || String.eqb key "additionalProperties"
     || String.eqb key "title" || String.eqb key "examples" then KDrop
  else if String.eqb key "enum" && is_array v then KKeep
  else if String.eqb key "format" && typeIsString then KDrop
  else if String.eqb key "properties" && is_object v then KClean
  else if String.eqb key "items" && is_object v then KClean
  else if is_object v && negb (is_array v) then KClean
  else KKeep.

(** The loop over the members of [cleaned]: [done] holds the members already
    visited (as updated), the list the members still to visit (unchanged);
    [cleaned.type] is read on both. *)
Fixpoint clean_members (rec : json -> json) (done kvs : list (string * json))
  : list (string * json) :=
  match kvs with
  | [] => done
  | (k, v) :: rest =>
      match key_action (type_is_string (done ++ kvs)) k v with
      | KDrop => clean_members rec done rest
      | KKeep => clean_members rec (done ++ [(k, v)]) rest
      | KClean => clean_members rec (done ++ [(k, rec v)]) rest
      end
  end.

(** [{ ...array }]: the members ["0"], ["1"], ... of an array. *)
Fixpoint index_members (i : nat) (l : list json) : list (string * json) :=
  match l with
  | [] => []
  | x :: r => (N_to_string (N.of_nat i), x) :: index_members (S i) r
  end.

(** The same loop over the spread of an array, member [i] onwards. *)
Fixpoint clean_elements (rec : json -> json) (done : list (string * json)) (i : nat)
  (l : list json) : list (string * json) :=
  match l with
  | [] => done
  | x :: r =>
      let k := N_to_string (N.of_nat i) in
      match key_action (type_is_string (done ++ index_members i l)) k x with
      | KDrop => clean_elements rec done (S i) r
      | KKeep => clean_elements rec (done ++ [(k, x)]) (S i) r
      | KClean => clean_elements rec (done ++ [(k, rec x)]) (S i) r
      end
  end.

Fixpoint cleanJsonSchema (schema : json) : json :=
  match schema with
  | JObj kvs => JObj (clean_members cleanJsonSchema [] kvs)
  | JArr l => JObj (clean_elements cleanJsonSchema [] 0 l)
  | _ => schema
  end.

Fixpoint json_size (v : json) : nat :=
  match v with
  | JArr l =>
      let fix sz (l : list json) : nat :=
        match l with [] => 0 | x :: r => json_size x + sz r end in
      S (sz l)
  | JObj kvs =>
      let fix szm (kvs : list (string * json)) : nat :=
        match kvs with [] => 0 | (_, x) :: r => json_size x + szm r end in
      S (szm kvs)
  | _ => 1
  end.

Definition jstr_string (v : json) : bool :=
  match v with JStr s => String.eqb s "string" | _ => false end.

(** One visited member as it is found in the cleaned object. *)
Definition member_out (rec : json -> json) (t : bool) (kv : string * json) : list (string * json) :=
  let (k, v) := kv in
  match key_action t k v with
  | KDrop => []
  | KKeep => [(k, v)]
  | KClean => [(k, rec v)]
  end.

(* digits *)
Definition digit_key (k : string) : Prop :=
  exists d r, (d < 10)%N /\ k = String (digit_char d) r.

(** An element of an array schema as it is found in the cleaned object. *)
Definition clean_elem (x : json) : json :=
  if is_object x && negb (is_array x) then cleanJsonSchema x else x.

Definition dropped_key (k : string) : bool :=
  String.eqb k "$schema" || String.eqb k "additionalProperties"
  || String.eqb k "title" || String.eqb k "examples".

Definition kept_key (typeIsString : bool) (k : string) : bool :=
  negb (dropped_key k || String.eqb k "format" && typeIsString).

Definition members (v : json) : list (string * json) :=
  match v with JObj kvs => kvs | _ => [] end.

Definition event_type (e : Event) : string :=
  match e with
  | MessageStart _ => "message_start"
  | ContentBlockStart _ _ => "content_block_start"
  | ContentBlockDelta _ _ => "content_block_delta"
  | ContentBlockStop _ => "content_block_stop"
  | MessageStop _ => "message_stop"
  end.

Definition content_block_json (cb : ContentBlock) : json :=
  match cb with
  | CBText text => JObj [("type", JStr "text"); ("text", JStr text)]
  | CBToolUse id name input =>
      JObj [("type", JStr "tool_use"); ("id", JStr id); ("name", JStr name); ("input", input)]
  end.

Definition delta_json (d : BlockDelta) : json :=
  match d with
  | TextDelta text => JObj [("type", JStr "text_delta"); ("text", JStr text)]
  | InputJsonDelta p => JObj [("type", JStr "input_json_delta"); ("partial_json", JStr p)]
  end.

Definition usage_json (u : Usage) : json :=
  JObj [("input_tokens", JNum (Z.of_nat (input_tokens u)));
        ("output_tokens", JNum (Z.of_nat (output_tokens u)))].

(** The object passed to [JSON.stringify] for each event. *)
Definition event_json (e : Event) : json :=
  match e with
  | MessageStart id =>
      JObj [("type", JStr "message_start");
            ("message", JObj [("id", JStr id); ("type", JStr "message");
                              ("role", JStr "assistant"); ("content", JArr [])])]
  | ContentBlockStart index cb =>
      JObj [("type", JStr "content_block_start"); ("index", JNum (Z.of_nat index));
            ("content_block", content_block_json cb)]
  | ContentBlockDelta index d =>
      JObj [("type", JStr "content_block_delta"); ("index", JNum (Z.of_nat index));
            ("delta", delta_json d)]
  | ContentBlockStop index =>
      JObj [("type", JStr "content_block_stop"); ("index", JNum (Z.of_nat index))]
  | MessageStop usage =>
      JObj ([("type", JStr "message_stop")] ++
            match usage with Some u => [("usage", usage_json u)] | None => [] end)
  end.

(** The text [`event: ${type}\ndata: ${JSON.stringify(...)}\n\n`] that is
    enqueued for an event. *)
Definition sse_event (e : Event) : string :=
  ("event: " ++ event_type e ++
   String nl ("data: " ++ stringify (event_json e) ++ String nl (String nl EmptyString)))%string.

Fixpoint items_text (l : list json) : string :=
  match l with
  | [] => EmptyString
  | [x] => stringify x
  | x :: r => (stringify x ++ "," ++ items_text r)%string
  end.

Fixpoint members_text (kvs : list (string * json)) : string :=
  match kvs with
  | [] => EmptyString
  | [(k, x)] => (quote k ++ ":" ++ stringify x)%string
  | (k, x) :: r => (quote k ++ ":" ++ stringify x ++ "," ++ members_text r)%string
  end.

(** A block of a Claude message's [content] array, by its [type]. *)
Inductive ClaudeContent : Type :=
| CCText (text : string)
| CCToolUse (id name : string) (input : json)
| CCToolResult (tool_use_id : string) (content : json)
| CCOther (type : string).

Inductive ClaudeMessageContent : Type :=
| MCString (s : string)
| MCBlocks (bs : list ClaudeContent).

Record ClaudeMessage := { role : string; message_content : ClaudeMessageContent }.

(** [{ id, type: 'function', function: { name, arguments } }] *)
Record OpenAIToolCallOut := { call_id : string; call_name : string; call_arguments : string }.

Record OpenAIMessage := {
  o_role : string;
  o_content : option string;
  o_tool_calls : option (list OpenAIToolCallOut);
  o_tool_call_id : option string }.

(** [arr.join(sep)] *)
Fixpoint join (sep : string) (l : list string) : string :=
  match l with
  | [] => EmptyString
  | [x] => x
  | x :: r => (x ++ sep ++ join sep r)%string
  end.

Definition openai_role (r : string) : string :=
  if String.eqb r "assistant" then "assistant" else "user".

(** The inner [for (const content of message.content)]: [textContents],
    [toolCalls] and [toolResults] in the order of the blocks. *)
Fixpoint collect_contents (bs : list ClaudeContent)
  : list string * list OpenAIToolCallOut * list (string * string) :=
  match bs with
  | [] => ([], [], [])
  | b :: r =>
      let '(texts, calls, results) := collect_contents r in
      match b with
      | CCText text => (text :: texts, calls, results)
      | CCToolUse id name input =>
          (texts, {| call_id := id; call_name := name; call_arguments := stringify input |} :: calls,
           results)
      | CCToolResult tool_use_id c =>
          (texts, calls,
           (tool_use_id, match c with JStr s => s | _ => stringify c end) :: results)
      | CCOther _ => (texts, calls, results)
      end
  end.

(** The message pushed for one entry of [toolResults]. *)
Definition tool_message (toolResult : string * string) : OpenAIMessage :=
  {| o_role := "tool"; o_content := Some (snd toolResult);
     o_tool_calls := None; o_tool_call_id := Some (fst toolResult) |}.

(** The body of [for (const message of claudeMessages)]: the messages it
    pushes.  ([toolCallMap] is written and never read.) *)
Definition convertMessage (message : ClaudeMessage) : list OpenAIMessage :=
  match message_content message with
  | MCString s =>
      [{| o_role := openai_role (role message); o_content := Some s;
          o_tool_calls := None; o_tool_call_id := None |}]
  | MCBlocks bs =>
      let '(textContents, toolCalls, toolResults) := collect_contents bs in
      (if (0 <? length textContents) || (0 <? length toolCalls) then
         [{| o_role := openai_role (role message);
             o_content := if 0 <? length textContents then Some (join (String nl EmptyString) textContents)
                          else None;
             o_tool_calls := if 0 <? length toolCalls then Some toolCalls else None;
             o_tool_call_id := None |}]
       else []) ++
      map tool_message toolResults
  end.

Fixpoint convertMessages_loop (openaiMessages : list OpenAIMessage) (claudeMessages : list ClaudeMessage)
  : list OpenAIMessage :=
  match claudeMessages with
  | [] => openaiMessages
  | m :: r => convertMessages_loop (openaiMessages ++ convertMessage m) r
  end.

Definition convertMessages (claudeMessages : list ClaudeMessage) : list OpenAIMessage :=
  convertMessages_loop [] claudeMessages.

Definition block_text (b : ClaudeContent) : list string :=
  match b with CCText t => [t] | _ => [] end.

Definition block_tool_call (b : ClaudeContent) : list OpenAIToolCallOut :=
  match b with
  | CCToolUse id name input =>
      [{| call_id := id; call_name := name; call_arguments := stringify input |}]
  | _ => []
  end.

Definition block_tool_result (b : ClaudeContent) : list (string * string) :=
  match b with
  | CCToolResult id c => [(id, match c with JStr s => s | _ => stringify c end)]
  | _ => []
  end.

Definition claude_tool_calls (m : ClaudeMessage) : list OpenAIToolCallOut :=
  match message_content m with
  | MCString _ => []
  | MCBlocks bs => flat_map block_tool_call bs
  end.

Definition claude_tool_results (m : ClaudeMessage) : list (string * string) :=
  match message_content m with
  | MCString _ => []
  | MCBlocks bs => flat_map block_tool_result bs
  end.

Definition out_tool_calls (om : OpenAIMessage) : list OpenAIToolCallOut :=
  match o_tool_calls om with Some l => l | None => [] end.

Definition is_tool_message (om : OpenAIMessage) : bool := String.eqb (o_role om) "tool".

Definition slash : ascii := "/"%char.

(** [s.split(c)] on a one-character separator: always a non-empty list. *)
Fixpoint split_char (c : ascii) (s : string) : list string :=
  match s with
  | EmptyString => [EmptyString]
  | String d s' =>
      let r := split_char c s' in
      if Ascii.eqb d c then EmptyString :: r
      else match r with
           | [] => [String d EmptyString]
           | h :: t => String d h :: t
           end
  end.

(** [s.endsWith(p)] *)
Definition endsWith (s p : string) : bool :=
  (String.length p <=? String.length s) &&
  String.eqb (substring (String.length s - String.length p) (String.length p) s) p.

(** [utils.buildUrl] *)
Definition buildUrl (baseUrl endpoint : string) : string :=
  let finalUrl := if negb (endsWith baseUrl "/") then (baseUrl ++ "/")%string else baseUrl in
  (finalUrl ++ endpoint)%string.

(** The providers [handle] dispatches to. *)
Inductive ProviderType := PGemini | POpenAI.

(** What [handle] does with a request: answer it with a status and a body;
    throw (the [fetch] handler then answers 500 [Internal server error]);
    or, with the parsed request body [originalClaudeRequest], go on to
    [providerImpl.convertToProviderRequest(request.clone(), baseUrl,
    apiKey)], the upstream [fetch] and [convertToClaudeResponse]. *)
Inductive HandleResult :=
| HResponse (status : nat) (body : string)
| HThrows
| HForward (providerImpl : ProviderType) (baseUrl apiKey : string) (originalClaudeRequest : json).

(** [url.pathname.split('/').filter(part => part !== '')] *)
Definition pathParts (pathname : string) : list string :=
  filter (fun part => negb (String.eqb part EmptyString)) (split_char slash pathname).

(** [handle], on the request's [method], the [pathname] of its URL, its
    [x-api-key] header and its body read by [request.clone().json()]
    ([None]: the body is not JSON and the read throws). *)
Definition handle (method pathname : string) (x_api_key : option string)
  (requestJson : option json) : HandleResult :=
  if negb (String.eqb method "POST") then HResponse 405 "Method not allowed" else
  let pathParts := pathParts pathname in
  if List.length pathParts <? 3 then
    HResponse 400 "Invalid path format. Expected: /{type}/{provider_url}/v1/messages" else
  let lastTwoParts := skipn (List.length pathParts - 2) pathParts in
  if negb (String.eqb (nth 0 lastTwoParts EmptyString) "v1")
     || negb (String.eqb (nth 1 lastTwoParts EmptyString) "messages") then
    HResponse 404 "Path must end with /v1/messages" else
  let typeParam := nth 0 pathParts EmptyString in
  (* [pathParts.slice(1, -2)] *)
  let providerUrlParts := firstn (List.length pathParts - 2 - 1) (skipn 1 pathParts) in
  let baseUrl := join "/" providerUrlParts in
  if String.eqb typeParam EmptyString || String.eqb baseUrl EmptyString then
    HResponse 400 "Missing type or provider_url in path" else
  match x_api_key with
  | None => HResponse 401 "Missing x-api-key header"
  | Some apiKey =>
      if String.eqb apiKey EmptyString then HResponse 401 "Missing x-api-key header" else
      (* after the [switch]: [await request.clone().json()] *)
      let forward providerImpl :=
        match requestJson with
        | None => HThrows
        | Some originalClaudeRequest => HForward providerImpl baseUrl apiKey originalClaudeRequest
        end in
      if String.eqb typeParam "gemini" then forward PGemini
      else if String.eqb typeParam "openai" then forward POpenAI
      else HResponse 400 "Unsupported type"
  end.

(** Statement helper: no occurrence of [c] in [s]. *)
Fixpoint no_char (c : ascii) (s : string) : bool :=
  match s with
  | EmptyString => true
  | String d s' => negb (Ascii.eqb d c) && no_char c s'
  end.

(** [types.OpenAIResponse], read at the fields [convertNormalResponse] reads. *)
Record OpenAIFunctionN := { nfn_name : string; nfn_arguments : string }.
Record OpenAIToolCallN := { ntc_id : string; ntc_function : option OpenAIFunctionN }.
Record OpenAIMessageN := { nmsg_content : option string;
                           nmsg_tool_calls : option (list OpenAIToolCallN) }.
Record OpenAIChoiceN := { nmessage : option OpenAIMessageN; finish_reason : option string }.
Record OpenAIUsage := { prompt_tokens : option nat; completion_tokens : option nat }.
Record OpenAIResponse := { nchoices : option (list OpenAIChoiceN); nusage : option OpenAIUsage }.

Record ClaudeResponse := {
  cr_id : string;
  cr_content : list ContentBlock;
  stop_reason : option string;
  cr_usage : Usage }.

(** JS truthiness of an optional number. *)
Definition truthy_num (o : option nat) : bool :=
  match o with Some n => negb (n =? 0) | None => false end.

(** [x || 0] on an optional token count. *)
Definition or_zero (o : option nat) : nat :=
  match o with Some n => n | None => 0 end.

(** The text block of a message, if its [content] is truthy. *)
Definition text_block (m : OpenAIMessageN) : list ContentBlock :=
  match truthy_str (nmsg_content m) with Some t => [CBText t] | None => [] end.

Section NormalResponse.

Variable random_id : nat -> string.
Variable Msg : Type.
Variable parse_json : string -> option json.
Variable tokenEstimator : Estimator Msg.
(** [this.tokenEstimator.estimateClaudeContent] *)
Variable estimateClaudeContent : list ContentBlock -> nat.

(** [for (const toolCall of message.tool_calls)]; [None]: [toolCall.function]
    is undefined and reading its [name] throws. *)
Fixpoint tool_use_blocks (tcs : list OpenAIToolCallN) : option (list ContentBlock) :=
  match tcs with
  | [] => Some []
  | tc :: r =>
      match ntc_function tc, tool_use_blocks r with
      | Some f, Some bs =>
          Some (CBToolUse (ntc_id tc) (nfn_name f) (safeJsonParse parse_json (nfn_arguments f)) :: bs)
      | _, _ => None
      end
  end.

(** The [if (openaiData.choices && openaiData.choices.length > 0)] block:
    the content and [stop_reason]; [None]: it throws. *)
Definition choice_content (choices : option (list OpenAIChoiceN))
  : option (list ContentBlock * option string) :=
  match choices with
  | Some (choice :: _) =>
      match nmessage choice with
      | None => None
      | Some message =>
          let text := match truthy_str (nmsg_content message) with
                      | Some t => [CBText t]
                      | None => []
                      end in
          match nmsg_tool_calls message with
          | Some tcs =>
              match tool_use_blocks tcs with
              | Some bs => Some (text ++ bs, Some "tool_use")
              | None => None
              end
          | None =>
              if match finish_reason choice with Some r => String.eqb r "length" | None => false end
              then Some (text, Some "max_tokens")
              else Some (text, Some "end_turn")
          end
      end
  | _ => Some ([], None)
  end.

(** [convertNormalResponse]: the Claude response body, with the state of
    the random generator after [generateId]; [None]: it throws.  The
    upstream body is given as read by [await openaiResponse.json()]
    ([None]: it is not JSON and the read throws). *)
Definition convertNormalResponse (rng : nat) (openaiBody : option OpenAIResponse)
  (originalClaudeRequest : option (ClaudeRequest Msg)) : option (nat * ClaudeResponse) :=
  match openaiBody with
  | None => None
  | Some openaiData =>
  let (rng', id) := generateId random_id rng in
  match choice_content (nchoices openaiData) with
  | None => None
  | Some (content, stop) =>
      let inputTokens0 :=
        match nusage openaiData with Some u => or_zero (prompt_tokens u) | None => 0 end in
      let outputTokens0 :=
        match nusage openaiData with Some u => or_zero (completion_tokens u) | None => 0 end in
      let '(inputTokens, outputTokens) :=
        match nusage openaiData, originalClaudeRequest with
        | None, Some req =>
            (estimateMessages tokenEstimator (messages req), estimateClaudeContent content)
        | _, _ =>
            if negb (truthy_num (match nusage openaiData with
                                 | Some u => completion_tokens u
                                 | None => None
                                 end)) && (0 <? length content)
            then (inputTokens0, estimateClaudeContent content)
            else (inputTokens0, outputTokens0)
        end in
      Some (rng', {| cr_id := id; cr_content := content; stop_reason := stop;
                     cr_usage := {| input_tokens := inputTokens; output_tokens := outputTokens |} |})
  end
  end.

(** The [tool_use] block of a tool call with a [function]. *)
Definition tool_block (tc : OpenAIToolCallN) (f : OpenAIFunctionN) : ContentBlock :=
  CBToolUse (ntc_id tc) (nfn_name f) (safeJsonParse parse_json (nfn_arguments f)).

End NormalResponse.

(** ** Framing lemmas *)

Lemma split_nl_nonempty : forall s, split_nl s <> [].
Proof.
  induction s as [|c s IH]; simpl; [discriminate|].
  destruct (Ascii.eqb c nl); [discriminate|].
  destruct (split_nl s); discriminate.
Qed.

Lemma removelast_cons_ne {A} (a : A) l : l <> [] -> removelast (a :: l) = a :: removelast l.
Proof. destruct l; [contradiction|reflexivity]. Qed.

Lemma last_cons_ne {A} (a d : A) l : l <> [] -> last (a :: l) d = last l d.
Proof. destruct l; [contradiction|reflexivity]. Qed.

Lemma removelast_app_ne {A} (l1 l2 : list A) :
  l2 <> [] -> removelast (l1 ++ l2) = l1 ++ removelast l2.
Proof.
  intros H; induction l1 as [|a l1 IH]; simpl; [reflexivity|].
  rewrite <- IH. destruct (l1 ++ l2) eqn:E; [|reflexivity].
  apply app_eq_nil in E. tauto.
Qed.

Lemma last_app_ne {A} (l1 l2 : list A) d : l2 <> [] -> last (l1 ++ l2) d = last l2 d.
Proof.
  intros H; induction l1 as [|a l1 IH]; simpl; [reflexivity|].
  rewrite <- IH. destruct (l1 ++ l2) eqn:E; [|reflexivity].
  apply app_eq_nil in E. tauto.
Qed.

(** Splitting a concatenation: the complete lines of the first part, then
    the split of its remainder followed by the second part. *)
Lemma split_nl_app : forall x y,
  split_nl (x ++ y) =
  removelast (split_nl x) ++ split_nl (last (split_nl x) EmptyString ++ y).
Proof.
  induction x as [|c x IH]; intros y; [reflexivity|].
  pose proof (split_nl_nonempty x) as Hne.
  change (String c x ++ y)%string with (String c (x ++ y)).
  cbn [split_nl]. rewrite IH.
  destruct (Ascii.eqb c nl) eqn:Ec.
  - rewrite removelast_cons_ne, last_cons_ne by exact Hne. reflexivity.
  - destruct (split_nl x) as [|h0 t0] eqn:Ex; [contradiction|].
    destruct t0 as [|h1 t1].
    + simpl. rewrite Ec. reflexivity.
    + rewrite (removelast_cons_ne h0 (h1 :: t1)) by discriminate.
      rewrite (removelast_cons_ne (String c h0) (h1 :: t1)) by discriminate.
      rewrite (last_cons_ne h0 _ (h1 :: t1)) by discriminate.
      rewrite (last_cons_ne (String c h0) _ (h1 :: t1)) by discriminate.
      reflexivity.
Qed.

Lemma string_app_assoc : forall a b c : string, ((a ++ b) ++ c)%string = (a ++ (b ++ c))%string.
Proof. induction a as [|x a IH]; intros; simpl; [reflexivity|now rewrite IH]. Qed.

Lemma string_app_nil_r : forall a : string, (a ++ EmptyString)%string = a.
Proof. induction a as [|x a IH]; simpl; [reflexivity|now rewrite IH]. Qed.

Lemma no_newline_split : forall b, no_newline b = true -> split_nl b = [b].
Proof.
  induction b as [|c b IH]; simpl; intros H; [reflexivity|].
  apply andb_prop in H as [Hc Hb]. apply negb_true_iff in Hc.
  rewrite Hc, (IH Hb). reflexivity.
Qed.

Lemma no_newline_last : forall s, no_newline (last (split_nl s) EmptyString) = true.
Proof.
  induction s as [|c s IH]; [reflexivity|]. simpl split_nl.
  pose proof (split_nl_nonempty s) as Hne.
  destruct (Ascii.eqb c nl) eqn:Ec.
  - rewrite last_cons_ne by exact Hne. exact IH.
  - destruct (split_nl s) as [|h t]; [contradiction|].
    destruct t as [|h1 t1].
    + simpl in *. rewrite Ec, IH. reflexivity.
    + rewrite (last_cons_ne (String c h) _ (h1 :: t1)) by discriminate.
      rewrite (last_cons_ne h _ (h1 :: t1)) in IH by discriminate. exact IH.
Qed.

Section Framing.

Variable random_id : nat -> string.
Variable S : Type.
Variable Msg : Type.
Variable processLine : Heap S -> string -> nat -> nat -> Heap S * LineOutcome.

Notation process_line := (process_line S processLine).
Notation process_lines := (process_lines S processLine).
Notation read_chunk := (read_chunk S processLine).
Notation read_loop := (read_loop S processLine).
Notation with_buffer := (with_buffer S).

Lemma with_buffer_twice : forall b b' st, with_buffer b (with_buffer b' st) = with_buffer b st.
Proof. reflexivity. Qed.

Lemma with_buffer_self : forall st, with_buffer (buffer st) st = st.
Proof. destruct st; reflexivity. Qed.

Lemma process_line_with_buffer : forall b st l,
  process_line (with_buffer b st) l =
  (with_buffer b (fst (process_line st l)), snd (process_line st l)).
Proof.
  intros b st l. unfold process_line.
  change (heap (with_buffer b st)) with (heap st).
  change (textIdx (with_buffer b st)) with (textIdx st).
  change (toolIdx (with_buffer b st)) with (toolIdx st).
  destruct (is_blank l || negb (startsWith l "data: ")); [reflexivity|].
  destruct (String.eqb (slice 6 l) "[DONE]"); [reflexivity|].
  destruct (processLine (heap st) (slice 6 l) (textIdx st) (toolIdx st)) as [h [| |r]];
    reflexivity.
Qed.

Lemma process_lines_with_buffer : forall ls b st,
  process_lines (with_buffer b st) ls =
  (with_buffer b (fst (process_lines st ls)), snd (process_lines st ls)).
Proof.
  induction ls as [|l ls IH]; intros b st; [reflexivity|]. simpl.
  rewrite process_line_with_buffer.
  destruct (process_line st l) as [st' t]; simpl.
  destruct t; [reflexivity|]. apply IH.
Qed.

Lemma process_lines_app : forall l1 l2 st,
  process_lines st (l1 ++ l2) =
  let (st1, t) := process_lines st l1 in
  if t then (st1, true) else process_lines st1 l2.
Proof.
  induction l1 as [|l l1 IH]; intros l2 st; [reflexivity|]. simpl.
  destruct (process_line st l) as [st' t]. destruct t; [reflexivity|]. apply IH.
Qed.

Lemma read_chunk_app : forall st c1 c2,
  snd (read_chunk st (c1 ++ c2)) = false ->
  snd (read_chunk st c1) = false /\
  read_chunk st (c1 ++ c2) = read_chunk (fst (read_chunk st c1)) c2.
Proof.
  intros st c1 c2. unfold read_chunk, pop.
  rewrite <- string_app_assoc, split_nl_app.
  set (X := (buffer st ++ c1)%string).
  set (r1 := last (split_nl X) EmptyString).
  pose proof (split_nl_nonempty (r1 ++ c2)) as Hne.
  rewrite removelast_app_ne, last_app_ne by exact Hne.
  rewrite process_lines_app, !process_lines_with_buffer.
  destruct (process_lines st (removelast (split_nl X))) as [P t] eqn:EP. simpl.
  destruct t; simpl; [discriminate|]. intros H. split; [reflexivity|].
  rewrite process_lines_with_buffer. reflexivity.
Qed.

Lemma read_chunk_buffer : forall st c,
  buffer (fst (read_chunk st c)) = last (split_nl (buffer st ++ c)) EmptyString.
Proof.
  intros st c. unfold read_chunk, pop. rewrite process_lines_with_buffer. reflexivity.
Qed.

Lemma read_chunk_empty : forall st,
  no_newline (buffer st) = true -> read_chunk st EmptyString = (st, false).
Proof.
  intros st H. unfold read_chunk, pop.
  rewrite string_app_nil_r, (no_newline_split _ H). simpl.
  rewrite with_buffer_self. reflexivity.
Qed.

(** Reading the chunks one by one or as one chunk is the same, when the
    single chunk raises nothing. *)
Lemma read_loop_concat : forall cs st,
  no_newline (buffer st) = true ->
  snd (read_loop st [concat_chunks cs]) = false ->
  read_loop st cs = read_loop st [concat_chunks cs].
Proof.
  induction cs as [|c cs IH]; intros st Hb H.
  - simpl. rewrite (read_chunk_empty st Hb). reflexivity.
  - simpl concat_chunks in *. simpl in H.
    destruct (read_chunk st (c ++ concat_chunks cs)) as [stc tc] eqn:Ec.
    assert (Hc : snd (read_chunk st (c ++ concat_chunks cs)) = false)
      by (rewrite Ec; destruct tc; [discriminate|reflexivity]).
    destruct (read_chunk_app st c (concat_chunks cs) Hc) as [H1 H2].
    simpl read_loop at 1.
    destruct (read_chunk st c) as [st1 t1] eqn:E1. simpl in H1. subst t1.
    simpl in H2.
    assert (Hb1 : no_newline (buffer st1) = true).
    { replace st1 with (fst (read_chunk st c)) by (rewrite E1; reflexivity).
      rewrite read_chunk_buffer. apply no_newline_last. }
    rewrite IH by (exact Hb1 || (simpl; rewrite <- H2, Ec; destruct tc; [discriminate|reflexivity])).
    simpl. rewrite <- H2. reflexivity.
Qed.

Lemma read_loop_app : forall cs1 cs2 st,
  read_loop st (cs1 ++ cs2) =
  let (st1, t) := read_loop st cs1 in
  if t then (st1, true) else read_loop st1 cs2.
Proof.
  induction cs1 as [|c cs1 IH]; intros cs2 st; [reflexivity|]. simpl.
  destruct (read_chunk st c) as [st' t]. destruct t; [reflexivity|]. apply IH.
Qed.

End Framing.

(* ------------------------------------------------------------------ *)
(** ** Events, tokens and the OpenAI closure *)

Lemma tokens_app {Msg} (est : Estimator Msg) : forall a b,
  tokens_of_events est (a ++ b) = tokens_of_events est a + tokens_of_events est b.
Proof.
  induction a as [|e a IH]; intros b; [reflexivity|].
  destruct e as [id|i cb|i d|i|u]; [| destruct cb | destruct d | |];
    simpl; rewrite IH; lia.
Qed.

Lemma blocks_app : forall a b, blocks a -> blocks b -> blocks (a ++ b).
Proof.
  intros a b Ha Hb. induction Ha as [|i cb d r Hr IH]; [exact Hb|].
  rewrite <- app_assoc. constructor. exact IH.
Qed.

Lemma blocks_triple : forall i cb d, blocks (triple i cb d).
Proof. intros. rewrite <- app_nil_r. constructor. constructor. Qed.

Lemma blocks_nth : forall T tail,
  blocks T -> (forall i cb, ~ In (ContentBlockStart i cb) tail) ->
  forall k i cb, nth_error (T ++ tail) k = Some (ContentBlockStart i cb) ->
  exists d, nth_error (T ++ tail) (S k) = Some (ContentBlockDelta i d) /\
            nth_error (T ++ tail) (S (S k)) = Some (ContentBlockStop i).
Proof.
  intros T tail HT Htail. induction HT as [|i' cb' d' r Hr IH]; intros k i cb Hk.
  - exfalso. apply (Htail i cb). eapply nth_error_In. exact Hk.
  - rewrite <- app_assoc in *. simpl in *.
    destruct k as [|[|[|k]]]; simpl in Hk; try discriminate.
    + injection Hk as <- <-. exists d'. split; reflexivity.
    + exact (IH k i cb Hk).
Qed.

Lemma blocks_no_stop : forall T u, blocks T -> ~ In (MessageStop u) T.
Proof.
  intros T u HT. induction HT as [|i cb d r Hr IH]; [intros []|].
  simpl. intros [H|[H|[H|H]]]; try discriminate. exact (IH H).
Qed.

Lemma blocks_drop_usage : forall T, blocks T -> map drop_usage_event T = T.
Proof.
  intros T HT. induction HT as [|i cb d r Hr IH]; [reflexivity|].
  simpl. rewrite IH. reflexivity.
Qed.

Section OpenAIProofs.

Variable random_id : nat -> string.
Variable Msg : Type.
Variable parse_chunk : string -> option OpenAIStreamResponse.
Variable parse_json : string -> option json.
Variable est : Estimator Msg.

Notation PTC := (process_tool_calls random_id Msg parse_json est).
Notation PL := (openai_processLine random_id Msg parse_chunk parse_json est).

Lemma process_tool_calls_spec : forall tcs h idx,
  let '(h', idx', evs) := PTC h idx tcs in
  blocks evs /\ captured h' = captured h + tokens_of_events est evs.
Proof.
  induction tcs as [|tc tcs IH]; intros h idx; simpl.
  - split; [constructor|lia].
  - destruct (actionable_fn tc) as [[name args]|]; [|apply IH].
    unfold processToolUsePart, generateId.
    specialize (IH (mkHeap (S (seed h)) (captured h + estimate est name +
                   estimate est (stringify (safeJsonParse parse_json args)))) (S idx)).
    destruct (PTC _ (S idx) tcs) as [[h' idx'] evs'].
    destruct IH as [Hb Hc]. split.
    + apply (blocks_cons idx _ _ _ Hb).
    + rewrite Hc. simpl. lia.
Qed.

Lemma openai_processLine_spec : forall h s t u,
  match PL h s t u with
  | (h', LineOk r) =>
      blocks (events r) /\ captured h' = captured h + tokens_of_events est (events r) /\
      outputTokens r = Some (captured h')
  | (h', _) => h' = h
  end.
Proof.
  intros h s t u. unfold openai_processLine.
  destruct (parse_chunk s) as [d|]; [|reflexivity].
  destruct (choices d) as [[|ch chs]|]; try reflexivity.
  destruct (delta ch) as [dl|]; [|reflexivity].
  destruct (truthy_str (content dl)) as [c|];
  [ set (h1 := mkHeap (seed h) (captured h + estimate est c))
  | set (h1 := h) ];
  destruct (tool_calls dl) as [tcs|];
  try (pose proof (process_tool_calls_spec tcs h1 u) as Hs;
       destruct (PTC h1 u tcs) as [[h2 i2] evs2]; destruct Hs as [Hb Hc]);
  simpl; try rewrite tokens_app.
  - split; [apply (blocks_cons t _ _ _ Hb)|]. rewrite Hc. simpl. split; [lia|reflexivity].
  - split; [apply blocks_triple|]. split; [lia|reflexivity].
  - split; [exact Hb|]. rewrite Hc. split; reflexivity.
  - split; [constructor|]. split; [lia|reflexivity].
Qed.

Notation PLINE := (process_line nat PL).
Notation PLINES := (process_lines nat PL).
Notation RCHUNK := (read_chunk nat PL).
Notation RLOOP := (read_loop nat PL).
Notation CSR := (convertStreamResponse random_id Msg parse_chunk parse_json est).

Lemma update_total_some : forall total n, total <= n -> update_total total (Some n) = n.
Proof.
  intros total n H. unfold update_total.
  destruct (n =? 0) eqn:E; [apply Nat.eqb_eq in E; lia|reflexivity].
Qed.

Lemma process_line_inv : forall st l,
  stream_inv est st ->
  stream_inv est (fst (PLINE st l)) /\ exists evs, out (fst (PLINE st l)) = out st ++ evs.
Proof.
  intros st l Hi. unfold process_line.
  destruct (is_blank l || negb (startsWith l "data: "));
    [split; [exact Hi|exists []; rewrite app_nil_r; reflexivity]|].
  destruct (String.eqb (slice 6 l) "[DONE]");
    [split; [exact Hi|exists []; rewrite app_nil_r; reflexivity]|].
  pose proof (openai_processLine_spec
                (heap st) (slice 6 l) (textIdx st) (toolIdx st)) as Hs.
  destruct (PL (heap st) (slice 6 l) (textIdx st) (toolIdx st)) as [h' [| |r]];
    simpl; try (subst h'; split; [exact Hi|exists []; rewrite app_nil_r; reflexivity]).
  destruct Hs as (Hb & Hc & Ho). destruct Hi as ((id & T & Hout & HT) & Htot & Hcap).
  split; [|exists (events r); reflexivity].
  split; [|split]; simpl.
  - exists id, (T ++ events r). rewrite Hout. split; [reflexivity|].
    apply blocks_app; assumption.
  - rewrite Ho. apply update_total_some. lia.
  - rewrite tokens_app, Hc, Hcap. reflexivity.
Qed.

Lemma process_lines_inv : forall ls st,
  stream_inv est st ->
  stream_inv est (fst (PLINES st ls)) /\ exists evs, out (fst (PLINES st ls)) = out st ++ evs.
Proof.
  induction ls as [|l ls IH]; intros st Hi; simpl.
  - split; [exact Hi|exists []; rewrite app_nil_r; reflexivity].
  - destruct (process_line_inv st l Hi) as [Hi' [e1 He1]].
    destruct (PLINE st l) as [st' t]. simpl in *.
    destruct t; simpl; [split; [exact Hi'|exists e1; exact He1]|].
    destruct (IH st' Hi') as [Hi'' [e2 He2]]. split; [exact Hi''|].
    exists (e1 ++ e2). rewrite He2, He1, app_assoc. reflexivity.
Qed.

Lemma read_chunk_inv : forall st c,
  stream_inv est st ->
  stream_inv est (fst (RCHUNK st c)) /\ exists evs, out (fst (RCHUNK st c)) = out st ++ evs.
Proof.
  intros st c Hi. unfold read_chunk, pop.
  apply (process_lines_inv _ (with_buffer nat _ st)). exact Hi.
Qed.

Lemma read_loop_inv : forall cs st,
  stream_inv est st ->
  stream_inv est (fst (RLOOP st cs)) /\ exists evs, out (fst (RLOOP st cs)) = out st ++ evs.
Proof.
  induction cs as [|c cs IH]; intros st Hi; simpl.
  - split; [exact Hi|exists []; rewrite app_nil_r; reflexivity].
  - destruct (read_chunk_inv st c Hi) as [Hi' [e1 He1]].
    destruct (RCHUNK st c) as [st' t]. simpl in *.
    destruct t; simpl; [split; [exact Hi'|exists e1; exact He1]|].
    destruct (IH st' Hi') as [Hi'' [e2 He2]]. split; [exact Hi''|].
    exists (e1 ++ e2). rewrite He2, He1, app_assoc. reflexivity.
Qed.

Lemma init_state_inv : forall rng0, stream_inv est (init_state random_id nat (mkHeap rng0 0)).
Proof.
  intros rng0. split; [|split; reflexivity].
  exists (random_id rng0), []. split; [reflexivity|constructor].
Qed.

Lemma finally_block_shape : forall req st r,
  stream_inv est st ->
  let o := finally_block nat Msg PL req (Some est) st r in
  exists id T, blocks T /\
    ((emitted o = MessageStart id :: T /\ raised o = true) \/
     (emitted o = MessageStart id :: T ++ [MessageStop (usage_for est req (tokens_of_events est T))] /\
      raised o = r)).
Proof.
  intros req st r Hi. destruct Hi as ((id & T & Hout & HT) & Htot & Hcap).
  unfold finally_block.
  destruct (negb (is_blank (buffer st))).
  - pose proof (openai_processLine_spec
                  (heap st) (slice 6 (buffer st)) (textIdx st) (toolIdx st)) as Hs.
    destruct (PL (heap st) (slice 6 (buffer st)) (textIdx st) (toolIdx st)) as [h' [| |lr]]; simpl.
    + exists id, T. split; [exact HT|]. left. split; [exact Hout|reflexivity].
    + exists id, T. split; [exact HT|]. right. rewrite Hout. split; [|reflexivity].
      rewrite Htot, Hcap, Hout. reflexivity.
    + destruct Hs as (Hb & Hc & Ho).
      exists id, (T ++ events lr). split; [apply blocks_app; assumption|]. right.
      rewrite Hout. split; [|reflexivity]. rewrite Ho, update_total_some by lia.
      rewrite Hc, Hcap, Hout, !tokens_app. simpl. rewrite <- !app_assoc. reflexivity.
  - simpl. exists id, T. split; [exact HT|]. right. rewrite Hout. split; [|reflexivity].
    rewrite Htot, Hcap, Hout. reflexivity.
Qed.

(** Shape of every outcome of a stream with a body. *)
Lemma convert_shape : forall req b rng0,
  let o := CSR req (Some b) rng0 in
  exists id T, blocks T /\
    ((emitted o = MessageStart id :: T /\ raised o = true) \/
     (exists r, emitted o = MessageStart id :: T ++ [MessageStop (usage_for est req (tokens_of_events est T))] /\
      raised o = r)).
Proof.
  intros req b rng0. unfold convertStreamResponse, processProviderStream.
  destruct (read_loop_inv (chunks b) _ (init_state_inv rng0)) as [Hi _].
  destruct (RLOOP (init_state random_id nat (mkHeap rng0 0)) (chunks b)) as [st1 t] eqn:E.
  simpl in Hi.
  destruct (finally_block_shape req st1
              (t || match read_end b with ReadFails => true | ReadDone => false end) Hi)
    as (id & T & HT & [H|[H1 H2]]).
  - exists id, T. split; [exact HT|left; exact H].
  - exists id, T. split; [exact HT|right]. eexists. split; [exact H1|reflexivity].
Qed.

(** The [finally] block emits [message_stop] exactly when its flush does not throw. *)
Lemma finally_block_flush : forall req st r,
  let o := finally_block nat Msg PL req (Some est) st r in
  (flush_throws nat PL st = true /\ emitted o = out st /\ raised o = true) \/
  (flush_throws nat PL st = false /\
   (exists evs u, emitted o = out st ++ evs ++ [MessageStop u]) /\ raised o = r).
Proof.
  intros req st r o. subst o. unfold finally_block, flush_throws.
  destruct (PL (heap st) (slice 6 (buffer st)) (textIdx st) (toolIdx st)) as [h' [| |lr]];
    destruct (negb (is_blank (buffer st))); simpl.
  - left. split; [reflexivity|split; reflexivity].
  - right. split; [reflexivity|]. split; [|reflexivity]. exists []; eexists. reflexivity.
  - right. split; [reflexivity|]. split; [|reflexivity]. exists []; eexists. reflexivity.
  - right. split; [reflexivity|]. split; [|reflexivity]. exists []; eexists. reflexivity.
  - right. split; [reflexivity|]. split; [|reflexivity]. exists (events lr); eexists.
    rewrite <- app_assoc. reflexivity.
  - right. split; [reflexivity|]. split; [|reflexivity]. exists []; eexists. reflexivity.
Qed.

(** The events emitted before the [finally] block hold no [message_stop]. *)
Lemma loop_out_no_stop : forall b rng0 u,
  ~ In (MessageStop u) (out (fst (RLOOP (init_state random_id nat (mkHeap rng0 0)) (chunks b)))).
Proof.
  intros b rng0 u.
  destruct (read_loop_inv (chunks b) _ (init_state_inv rng0)) as [((id & T & Hout & HT) & _) _].
  rewrite Hout. intros [H|H]; [discriminate|]. exact (blocks_no_stop T u HT H).
Qed.

(** Outcome of a stream with a body, on whether the flush throws. *)
Lemma convert_flush : forall req b rng0,
  let lp := RLOOP (init_state random_id nat (mkHeap rng0 0)) (chunks b) in
  let o := CSR req (Some b) rng0 in
  (flush_throws nat PL (fst lp) = true /\ emitted o = out (fst lp) /\ raised o = true) \/
  (flush_throws nat PL (fst lp) = false /\
   (exists evs u, emitted o = out (fst lp) ++ evs ++ [MessageStop u]) /\
   raised o = snd lp || match read_end b with ReadFails => true | ReadDone => false end).
Proof.
  intros req b rng0 lp o. subst lp o. unfold convertStreamResponse, processProviderStream.
  destruct (RLOOP (init_state random_id nat (mkHeap rng0 0)) (chunks b)) as [st1 t].
  apply finally_block_flush.
Qed.

Lemma finally_block_drop_usage : forall rq st r,
  stream_inv est st ->
  finally_block nat Msg PL None (Some est) st r =
  drop_usage (finally_block nat Msg PL (Some rq) (Some est) st r).
Proof.
  intros rq st r Hi. destruct Hi as ((id & T & Hout & HT) & _ & _).
  unfold finally_block, drop_usage.
  destruct (negb (is_blank (buffer st))).
  - pose proof (openai_processLine_spec
                  (heap st) (slice 6 (buffer st)) (textIdx st) (toolIdx st)) as Hs.
    destruct (PL (heap st) (slice 6 (buffer st)) (textIdx st) (toolIdx st)) as [h' [| |lr]];
      simpl; rewrite ?map_app, Hout; simpl; rewrite ?map_app, (blocks_drop_usage T HT);
      try reflexivity.
    destruct Hs as (Hb & _ & _). rewrite (blocks_drop_usage _ Hb). reflexivity.
  - simpl. rewrite map_app, Hout. simpl. rewrite (blocks_drop_usage T HT). reflexivity.
Qed.

End OpenAIProofs.

(* ------------------------------------------------------------------ *)
(** ** The claims *)

Lemma split_nl_no_newline_app : forall x y,
  no_newline x = true ->
  split_nl (x ++ y) = match split_nl y with
                      | h :: t => (x ++ h)%string :: t
                      | [] => [x]
                      end.
Proof.
  induction x as [|c x IH]; intros y H.
  - simpl. pose proof (split_nl_nonempty y).
    destruct (split_nl y); [contradiction|reflexivity].
  - simpl in H. apply andb_prop in H as [Hc Hx]. apply negb_true_iff in Hc.
    simpl. rewrite Hc, (IH y Hx). destruct (split_nl y); reflexivity.
Qed.

Lemma split_data_line : forall j,
  no_newline j = true ->
  split_nl (data_line j) = [String.append "data: " j; EmptyString].
Proof.
  intros j H. unfold data_line. rewrite <- string_app_assoc.
  rewrite split_nl_no_newline_app by (simpl; exact H).
  simpl. rewrite string_app_nil_r. reflexivity.
Qed.

Section Claims.

Variable random_id : nat -> string.
Variable Msg : Type.
Variable parse_chunk : string -> option OpenAIStreamResponse.
Variable parse_json : string -> option json.
Variable est : Estimator Msg.

Notation PL := (openai_processLine random_id Msg parse_chunk parse_json est).
Notation PTC := (process_tool_calls random_id Msg parse_json est).
Notation CSR := (convertStreamResponse random_id Msg parse_chunk parse_json est).
Notation RLOOP := (read_loop nat PL).

(** C10: when the upstream response has no readable body, the outbound
    stream is closed at once with no event at all: no [message_start], no
    [message_stop], no block event, and nothing is thrown. *)
Theorem C10_no_body_no_events : forall req rng0,
  convertStreamResponse random_id Msg parse_chunk parse_json est req None rng0 =
  {| emitted := []; raised := false |}.
Proof. reflexivity. Qed.

(** C4: in every emitted event sequence, a [content_block_start] with index
    [i] at position [k] is followed at position [k+1] by a
    [content_block_delta] with index [i] and at [k+2] by a
    [content_block_stop] with index [i]. *)
Theorem C4_block_triples : forall req body rng0 k i cb,
  let out := emitted (convertStreamResponse random_id Msg parse_chunk parse_json est req body rng0) in
  nth_error out k = Some (ContentBlockStart i cb) ->
  exists d,
    nth_error out (S k) = Some (ContentBlockDelta i d) /\
    nth_error out (S (S k)) = Some (ContentBlockStop i).
Proof.
  intros req [b|] rng0 k i cb out Hk; subst out; [|destruct k; discriminate].
  destruct (convert_shape random_id Msg parse_chunk parse_json est req b rng0)
    as (id & T & HT & [[He _]|(r & He & _)]);
  rewrite He in *; (destruct k as [|k]; [discriminate|]); simpl in *.
  - rewrite <- (app_nil_r T) in Hk |- *.
    apply (blocks_nth T [] HT (fun _ _ H => H) k i cb Hk).
  - apply (blocks_nth T _ HT) with (cb := cb); [|exact Hk].
    intros i' cb' [H|[]]. discriminate.
Qed.

(** C3 (as amended): with no readable body nothing is emitted.  With a
    body, the events are exactly one [message_start], first, then only
    content-block triples, then at most one [message_stop], last.
    [message_stop] is missing exactly when the [finally] block's flush of
    the held-back remainder throws.  The start ends by throwing exactly when
    that flush throws, or a line of the loop throws, or a read fails.  The
    running output-token total [totalOutputTokens] never decreases as more
    chunks are processed. *)
Theorem C3_start_stop_framing : forall req rng0,
  CSR req None rng0 = {| emitted := []; raised := false |} /\
  (forall b, exists id T, blocks T /\
     ((emitted (CSR req (Some b) rng0) = MessageStart id :: T /\
       raised (CSR req (Some b) rng0) = true) \/
      (exists u, emitted (CSR req (Some b) rng0) = MessageStart id :: T ++ [MessageStop u]))) /\
  (forall b,
     (forall u, ~ In (MessageStop u) (emitted (CSR req (Some b) rng0))) <->
     flush_throws nat PL (fst (RLOOP (init_state random_id nat (mkHeap rng0 0)) (chunks b))) = true) /\
  (forall b,
     raised (CSR req (Some b) rng0) =
     flush_throws nat PL (fst (RLOOP (init_state random_id nat (mkHeap rng0 0)) (chunks b))) ||
     snd (RLOOP (init_state random_id nat (mkHeap rng0 0)) (chunks b)) ||
     match read_end b with ReadFails => true | ReadDone => false end) /\
  (forall cs1 cs2,
     totalOutputTokens (fst (RLOOP (init_state random_id nat (mkHeap rng0 0)) cs1)) <=
     totalOutputTokens (fst (RLOOP (init_state random_id nat (mkHeap rng0 0)) (cs1 ++ cs2)))).
Proof.
  intros req rng0. split; [reflexivity|]. split; [|split; [|split]].
  - intros b.
    destruct (convert_shape random_id Msg parse_chunk parse_json est req b rng0)
      as (id & T & HT & [H|(r & He & _)]).
    + exists id, T. split; [exact HT|left; exact H].
    + exists id, T. split; [exact HT|right]. eexists. exact He.
  - intros b.
    pose proof (loop_out_no_stop random_id Msg parse_chunk parse_json est b rng0) as Hn.
    destruct (convert_flush random_id Msg parse_chunk parse_json est req b rng0)
      as [(Hf & He & Hr)|(Hf & (evs & u & He) & Hr)]; rewrite Hf; cbv zeta in He.
    + split; [intros _; reflexivity|]. intros _ u. rewrite He. apply Hn.
    + split; [|discriminate]. intros H. exfalso. apply (H u). rewrite He.
      apply in_or_app. right. apply in_or_app. right. left. reflexivity.
  - intros b.
    destruct (convert_flush random_id Msg parse_chunk parse_json est req b rng0)
      as [(Hf & He & Hr)|(Hf & He & Hr)]; cbv zeta in Hf, Hr; rewrite Hf, Hr; reflexivity.
  - intros cs1 cs2. rewrite read_loop_app.
    destruct (read_loop_inv random_id Msg parse_chunk parse_json est cs1 _ (init_state_inv random_id Msg est rng0))
      as [Hi _].
    destruct (RLOOP (init_state random_id nat (mkHeap rng0 0)) cs1) as [st1 t]. simpl in Hi.
    destruct t; simpl; [lia|].
    destruct (read_loop_inv random_id Msg parse_chunk parse_json est cs2 st1 Hi) as [Hi' [evs He]].
    destruct Hi as (_ & Ht1 & Hc1). destruct Hi' as (_ & Ht2 & Hc2).
    rewrite Ht1, Hc1, Ht2, Hc2, He, tokens_app. lia.
Qed.

(** C6: the [message_stop] of a stream carries, when an original request
    was supplied, [input_tokens = estimateMessages(messages)] and
    [output_tokens] equal to the accumulated total, which is the estimate
    of all the content emitted on the stream; without an original request
    the usage is omitted and the outcome is otherwise the same (same
    events, same completion). *)
Theorem C6_stop_usage : forall req body rng0,
  (forall u, In (MessageStop u) (emitted (CSR req body rng0)) ->
     u = usage_for est req (tokens_of_events est (emitted (CSR req body rng0)))) /\
  (forall rq, CSR None body rng0 = drop_usage (CSR (Some rq) body rng0)).
Proof.
  intros req [b|] rng0; [|split; [intros u []|reflexivity]]. split.
  - intros u Hin.
    destruct (convert_shape random_id Msg parse_chunk parse_json est req b rng0)
      as (id & T & HT & [[He _]|(r & He & _)]); rewrite He in *.
    + destruct Hin as [H|H]; [discriminate|]. exfalso. exact (blocks_no_stop T u HT H).
    + destruct Hin as [H|H]; [discriminate|]. apply in_app_or in H as [H|[H|[]]].
      * exfalso. exact (blocks_no_stop T u HT H).
      * injection H as <-. simpl. rewrite tokens_app. simpl. rewrite Nat.add_0_r. reflexivity.
  - intros rq. unfold convertStreamResponse, processProviderStream.
    destruct (read_loop_inv random_id Msg parse_chunk parse_json est (chunks b) _
                (init_state_inv random_id Msg est rng0)) as [Hi _].
    destruct (RLOOP (init_state random_id nat (mkHeap rng0 0)) (chunks b)) as [st1 t].
    apply finally_block_drop_usage. exact Hi.
Qed.

Lemma openai_processLine_mixed : forall jsonStr c tc name args rest_choices h t u,
  parse_chunk jsonStr = Some {| choices := Some ({| delta := Some {| content := Some c;
                                  tool_calls := Some [tc] |} |} :: rest_choices) |} ->
  c <> EmptyString -> actionable_fn tc = Some (name, args) ->
  PL h jsonStr t u =
  (mkHeap (S (seed h)) (captured h + estimate est c + estimate est name +
                        estimate est (stringify (safeJsonParse parse_json args))),
   LineOk {| events := triple t (CBText EmptyString) (TextDelta c) ++
                       triple u (CBToolUse (random_id (seed h)) name (JObj []))
                              (InputJsonDelta (stringify (safeJsonParse parse_json args)));
             textBlockIndex := S t; toolUseBlockIndex := S u;
             outputTokens := Some (captured h + estimate est c + estimate est name +
                        estimate est (stringify (safeJsonParse parse_json args))) |}).
Proof.
  intros jsonStr c tc name args rest_choices h t u Hp Hc Ha.
  unfold openai_processLine. rewrite Hp.
  destruct c as [|c0 c']; [contradiction|]. simpl. rewrite Ha. reflexivity.
Qed.

(** C7: for a chunk whose delta carries a text fragment and one tool-call
    fragment, [processLine] emits the text triple at the current
    [textBlockIndex], then the tool_use triple at the current
    [toolUseBlockIndex], and increments each counter by one on its own;
    on the first line of a stream both counters are 0, so both triples
    carry index 0. *)
Theorem C7_mixed_chunk_order : forall jsonStr c tc name args rest_choices,
  parse_chunk jsonStr = Some {| choices := Some ({| delta := Some {| content := Some c;
                                  tool_calls := Some [tc] |} |} :: rest_choices) |} ->
  c <> EmptyString -> actionable_fn tc = Some (name, args) ->
  no_newline jsonStr = true -> jsonStr <> "[DONE]" ->
  (forall h t u, exists h',
     PL h jsonStr t u =
     (h', LineOk {| events := triple t (CBText EmptyString) (TextDelta c) ++
                     triple u (CBToolUse (random_id (seed h)) name (JObj []))
                            (InputJsonDelta (stringify (safeJsonParse parse_json args)));
                    textBlockIndex := S t; toolUseBlockIndex := S u;
                    outputTokens := Some (captured h') |})) /\
  (forall req rng0, exists usage,
     emitted (CSR req (Some {| chunks := [data_line jsonStr]; read_end := ReadDone |}) rng0) =
     MessageStart (random_id rng0) ::
       triple 0 (CBText EmptyString) (TextDelta c) ++
       triple 0 (CBToolUse (random_id (S rng0)) name (JObj []))
              (InputJsonDelta (stringify (safeJsonParse parse_json args))) ++
       [MessageStop usage]).
Proof.
  intros jsonStr c tc name args rest_choices Hp Hc Ha Hn Hd. split.
  - intros h t u.
    exists (mkHeap (S (seed h)) (captured h + estimate est c + estimate est name +
                                 estimate est (stringify (safeJsonParse parse_json args)))).
    rewrite (openai_processLine_mixed _ _ _ _ _ _ h t u Hp Hc Ha). reflexivity.
  - intros req rng0. eexists.
    unfold convertStreamResponse, processProviderStream, init_state, sendMessageStart, generateId.
    simpl chunks. simpl read_loop. unfold read_chunk, pop. simpl buffer.
    change ("" ++ data_line jsonStr)%string with (data_line jsonStr).
    rewrite (split_data_line jsonStr Hn).
    cbn [removelast last process_lines]. unfold process_line.
    cbn [with_buffer textIdx toolIdx heap buffer out totalOutputTokens].
    replace (is_blank ("data: " ++ jsonStr) || negb (startsWith ("data: " ++ jsonStr) "data: "))
      with false by (destruct jsonStr; reflexivity).
    replace (slice 6 ("data: " ++ jsonStr)) with jsonStr by reflexivity.
    rewrite (proj2 (String.eqb_neq jsonStr "[DONE]") Hd).
    rewrite (openai_processLine_mixed _ _ _ _ _ _ _ 0 0 Hp Hc Ha).
    unfold finally_block. simpl. reflexivity.
Qed.

(** C8: a tool-call fragment is actionable exactly when its [function]
    has both a [name] and an [arguments] present and non-empty (JS
    truthiness); every other fragment is skipped: processing the list of
    fragments is the same as processing only the actionable ones, so a
    skipped fragment emits no event and adds no tokens. *)
Theorem C8_tool_fragment_gate :
  (forall tc, actionable_fn tc = None <->
     (tc_function tc = None \/
      exists f, tc_function tc = Some f /\
                (truthy_str (fn_name f) = None \/ truthy_str (fn_arguments f) = None))) /\
  (forall tcs h idx,
     PTC h idx tcs =
     PTC h idx (filter (fun tc => match actionable_fn tc with Some _ => true | None => false end) tcs)).
Proof.
  split.
  - intros tc. unfold actionable_fn. destruct (tc_function tc) as [f|].
    + destruct (truthy_str (fn_name f)) as [n|] eqn:En;
        destruct (truthy_str (fn_arguments f)) as [a|] eqn:Ea.
      * split; [discriminate|].
        intros [H|(f' & Hf & [H|H])]; [discriminate| |]; injection Hf as <-; congruence.
      * split; intros _; [right; exists f; auto|reflexivity].
      * split; intros _; [right; exists f; auto|reflexivity].
      * split; intros _; [right; exists f; auto|reflexivity].
    + split; intros _; [left|]; reflexivity.
  - induction tcs as [|tc tcs IH]; intros h idx; [reflexivity|]. simpl.
    destruct (actionable_fn tc) as [[n a]|] eqn:E; simpl; rewrite ?E; [|apply IH].
    destruct (processToolUsePart random_id (seed h) n (safeJsonParse parse_json a) idx) as [rng' evs].
    rewrite IH. reflexivity.
Qed.

(** C9: a tool-call fragment whose arguments text is not valid JSON is
    still emitted as a tool_use triple whose [partial_json] is [{}] (the
    empty object), with the tokens of its name and of [{}] added; and
    [processLine] throws only when the payload itself does not parse or
    its first choice has no [delta], never because of tool arguments. *)
Theorem C9_malformed_arguments :
  (forall h idx tc rest name args,
     actionable_fn tc = Some (name, args) -> parse_json args = None ->
     PTC h idx (tc :: rest) =
     let '(h', idx', evs') :=
       PTC (mkHeap (S (seed h)) (captured h + estimate est name + estimate est "{}")) (S idx) rest in
     (h', idx', triple idx (CBToolUse (random_id (seed h)) name (JObj [])) (InputJsonDelta "{}") ++ evs')) /\
  (forall h s t u h',
     PL h s t u = (h', LineThrows) ->
     parse_chunk s = None \/
     exists d ch chs, parse_chunk s = Some d /\ choices d = Some (ch :: chs) /\ delta ch = None).
Proof.
  split.
  - intros h idx tc rest name args Ha Hj. simpl. rewrite Ha.
    unfold safeJsonParse. rewrite Hj. reflexivity.
  - intros h s t u h' H. unfold openai_processLine in H.
    destruct (parse_chunk s) as [d|]; [right|left; reflexivity].
    destruct (choices d) as [[|ch chs]|] eqn:Ech; try discriminate.
    exists d, ch, chs. split; [reflexivity|]. split; [exact Ech|].
    destruct (delta ch) as [dl|]; [|reflexivity]. exfalso.
    destruct (truthy_str (content dl)), (tool_calls dl);
      try destruct (PTC _ _ _) as [[? ?] ?]; discriminate.
Qed.

(** C1 (as amended): a payload that [JSON.parse] rejects makes
    [processLine] throw without emitting anything; the loop then processes
    no further line of that read and no further read, and the [finally]
    block runs with the exception pending: the stream's start ends by
    throwing, and [message_stop] is emitted after the events of the loop
    and of the flushed remainder unless that flush throws as well, in which
    case the events are those of the loop and no [message_stop] follows.
    Only a payload that parses but has no or empty [choices] is skipped
    with processing continuing. *)
Theorem C1_bad_line_aborts_loop :
  (forall h s t u, parse_chunk s = None -> PL h s t u = (h, LineThrows)) /\
  (forall h s t u d, parse_chunk s = Some d ->
     choices d = None \/ choices d = Some [] -> PL h s t u = (h, LineNull)) /\
  (forall st l ls, snd (process_line nat PL st l) = true ->
     process_lines nat PL st (l :: ls) = process_line nat PL st l) /\
  (forall st l ls, snd (process_line nat PL st l) = false ->
     process_lines nat PL st (l :: ls) = process_lines nat PL (fst (process_line nat PL st l)) ls) /\
  (forall st c cs, snd (read_chunk nat PL st c) = true ->
     RLOOP st (c :: cs) = read_chunk nat PL st c) /\
  (forall req b rng0,
     let lp := RLOOP (init_state random_id nat (mkHeap rng0 0)) (chunks b) in
     snd lp = true ->
     CSR req (Some b) rng0 = finally_block nat Msg PL req (Some est) (fst lp) true /\
     raised (CSR req (Some b) rng0) = true /\
     (flush_throws nat PL (fst lp) = false ->
        exists evs u, emitted (CSR req (Some b) rng0) = out (fst lp) ++ evs ++ [MessageStop u]) /\
     (flush_throws nat PL (fst lp) = true ->
        emitted (CSR req (Some b) rng0) = out (fst lp) /\
        forall u, ~ In (MessageStop u) (emitted (CSR req (Some b) rng0)))).
Proof.
  split; [|split; [|split; [|split; [|split]]]].
  - intros h s t u H. unfold openai_processLine. rewrite H. reflexivity.
  - intros h s t u d H [Hc|Hc]; unfold openai_processLine; rewrite H, Hc; reflexivity.
  - intros st l ls H. simpl. destruct (process_line nat PL st l) as [st' t].
    simpl in H. subst t. reflexivity.
  - intros st l ls H. simpl. destruct (process_line nat PL st l) as [st' t].
    simpl in H. subst t. reflexivity.
  - intros st c cs H. simpl. destruct (read_chunk nat PL st c) as [st' t].
    simpl in H. subst t. reflexivity.
  - intros req b rng0 lp H.
    assert (Hc : CSR req (Some b) rng0 = finally_block nat Msg PL req (Some est) (fst lp) true).
    { subst lp. unfold convertStreamResponse, processProviderStream.
      destruct (RLOOP (init_state random_id nat (mkHeap rng0 0)) (chunks b)) as [st1 t].
      simpl in H. subst t. reflexivity. }
    split; [exact Hc|].
    pose proof (loop_out_no_stop random_id Msg parse_chunk parse_json est b rng0) as Hn.
    destruct (convert_flush random_id Msg parse_chunk parse_json est req b rng0)
      as [(Hf & He & Hr)|(Hf & He & Hr)]; fold lp in Hf, He, Hr.
    + split; [exact Hr|]. split; [rewrite Hf; discriminate|].
      intros _. split; [exact He|]. rewrite He. apply Hn.
    + split; [rewrite Hr, H; reflexivity|]. split; [intros _; exact He|]. rewrite Hf. discriminate.
Qed.

(** C2 (as amended): for every body and every split of its text into read
    chunks, when the text read as one single chunk makes no line throw,
    the outcome (events and completion) is the same as for the single
    chunk. *)
Theorem C2_chunk_split_invariance : forall req cs e rng0,
  snd (RLOOP (init_state random_id nat (mkHeap rng0 0)) [concat_chunks cs]) = false ->
  CSR req (Some {| chunks := cs; read_end := e |}) rng0 =
  CSR req (Some {| chunks := [concat_chunks cs]; read_end := e |}) rng0.
Proof.
  intros req cs e rng0 H. unfold convertStreamResponse, processProviderStream. simpl chunks.
  rewrite (read_loop_concat nat PL cs) by (exact H || reflexivity).
  reflexivity.
Qed.

(** C5 (evaluation of the end-of-stream flush): a body ending with the
    sentinel line [data: [DONE]] without a final line break leaves it in
    the buffer; the [finally] block hands its [slice(6)] to [processLine]
    without the prefix and sentinel checks of the loop, [JSON.parse]
    throws on [[DONE]], and no [message_stop] is emitted.  With the line
    break, the loop discards the sentinel and [message_stop] is emitted. *)
Theorem C5_remainder_flush_skips_checks : forall req rng0,
  parse_chunk "[DONE]" = None ->
  CSR req (Some {| chunks := ["data: [DONE]"]; read_end := ReadDone |}) rng0 =
    {| emitted := [MessageStart (random_id rng0)]; raised := true |} /\
  CSR req (Some {| chunks := [data_line "[DONE]"]; read_end := ReadDone |}) rng0 =
    {| emitted := [MessageStart (random_id rng0); MessageStop (usage_for est req 0)];
       raised := false |}.
Proof.
  intros req rng0 H. split.
  - unfold convertStreamResponse, processProviderStream. simpl.
    unfold finally_block, openai_processLine. simpl. rewrite H. reflexivity.
  - unfold convertStreamResponse, processProviderStream. simpl.
    unfold finally_block. simpl. destruct req; reflexivity.
Qed.

End Claims.

(* ------------------------------------------------------------------ *)
(** ** Concrete runs: witnesses and counterexamples *)

(** A read holding the line [data: bad], then the line of [hi_chunk]. *)
Definition bad_then_hi : string :=
  String.append "data: bad" (String nl (data_line (stringify hi_chunk))).

(** The same text split after the [hi_chunk] payload, before its line break. *)
Definition bad_then_hi_split : list string :=
  [String.append "data: bad" (String nl (String.append "data: " (stringify hi_chunk)));
   String nl EmptyString].

(** The same text split inside the [data: ] prefix of the second line. *)
Definition hi_split : list string :=
  ["dat"; String.append "a: " (String.append (stringify hi_chunk) (String nl EmptyString))].

Definition hi_events : list Event :=
  triple 0 (CBText EmptyString) (TextDelta "Hi").

Definition nameless_call : OpenAIToolCall :=
  {| tc_function := Some {| fn_name := None; fn_arguments := Some q_args |} |}.

Definition lookup_call (args : string) : OpenAIToolCall :=
  {| tc_function := Some {| fn_name := Some "lookup"; fn_arguments := Some args |} |}.

Lemma C1_witness :
  ex_parse_chunk "bad" = None /\
  openai_processLine ex_random_id nat ex_parse_chunk ex_parse_json ex_estimator
    (mkHeap 0 0) "bad" 0 0 = (mkHeap 0 0, LineThrows).
Proof.
  split; [vm_compute; reflexivity|].
  apply (proj1 (C1_bad_line_aborts_loop ex_random_id nat ex_parse_chunk ex_parse_json ex_estimator)).
  vm_compute. reflexivity.
Defined.

(** C1 is false as stated: the well-formed line after [data: bad] emits
    nothing, while alone it emits its text triple. *)
Lemma C1_counterexample :
  ex_convert None [bad_then_hi] =
    {| emitted := [MessageStart "id0"; MessageStop None]; raised := true |} /\
  ex_convert None [data_line (stringify hi_chunk)] =
    {| emitted := MessageStart "id0" :: hi_events ++ [MessageStop None]; raised := false |}.
Proof. split; vm_compute; reflexivity. Qed.

Lemma C2_witness :
  snd (read_loop nat (openai_processLine ex_random_id nat ex_parse_chunk ex_parse_json ex_estimator)
         (init_state ex_random_id nat (mkHeap 0 0)) [concat_chunks hi_split]) = false /\
  ex_convert None hi_split = ex_convert None [concat_chunks hi_split].
Proof.
  split; [vm_compute; reflexivity|].
  apply (C2_chunk_split_invariance ex_random_id nat ex_parse_chunk ex_parse_json ex_estimator).
  vm_compute. reflexivity.
Defined.

(** C2 is false as stated: two splits of the same text give different
    events (the remainder held back by the failing read is flushed). *)
Lemma C2_counterexample :
  emitted (ex_convert None bad_then_hi_split) =
    MessageStart "id0" :: hi_events ++ [MessageStop None] /\
  emitted (ex_convert None [concat_chunks bad_then_hi_split]) =
    [MessageStart "id0"; MessageStop None] /\
  emitted (ex_convert None bad_then_hi_split) <>
  emitted (ex_convert None [concat_chunks bad_then_hi_split]).
Proof.
  split; [vm_compute; reflexivity|]. split; [vm_compute; reflexivity|].
  vm_compute. discriminate.
Qed.

(** C3 is false as stated: no [message_start] without a body, and no
    [message_stop] when the body ends with the line [data: bad] and no
    line break, whose flush throws. *)
Lemma C3_counterexample :
  emitted (convertStreamResponse ex_random_id nat ex_parse_chunk ex_parse_json ex_estimator
             None None 0) = [] /\
  ex_convert None ["data: bad"] = {| emitted := [MessageStart "id0"]; raised := true |}.
Proof. split; vm_compute; reflexivity. Qed.

Lemma C4_witness :
  nth_error (emitted (ex_convert None [data_line (stringify hi_chunk)])) 1 =
    Some (ContentBlockStart 0 (CBText EmptyString)) /\
  exists d,
    nth_error (emitted (ex_convert None [data_line (stringify hi_chunk)])) 2 =
      Some (ContentBlockDelta 0 d) /\
    nth_error (emitted (ex_convert None [data_line (stringify hi_chunk)])) 3 =
      Some (ContentBlockStop 0).
Proof.
  split; [vm_compute; reflexivity|]. unfold ex_convert.
  apply (C4_block_triples ex_random_id nat ex_parse_chunk ex_parse_json ex_estimator
           None (Some {| chunks := [data_line (stringify hi_chunk)]; read_end := ReadDone |}) 0
           1 0 (CBText EmptyString)).
  vm_compute. reflexivity.
Defined.

Lemma C5_witness :
  ex_parse_chunk "[DONE]" = None /\
  ex_convert None ["data: [DONE]"] = {| emitted := [MessageStart "id0"]; raised := true |}.
Proof.
  split; [vm_compute; reflexivity|]. unfold ex_convert.
  apply (proj1 (C5_remainder_flush_skips_checks ex_random_id nat ex_parse_chunk ex_parse_json
                  ex_estimator None 0 ltac:(vm_compute; reflexivity))).
Defined.

Lemma C6_witness :
  In (MessageStop (Some {| input_tokens := 2; output_tokens := 2 |}))
     (emitted (ex_convert (Some {| messages := [1; 2] |}) [data_line (stringify hi_chunk)])) /\
  Some {| input_tokens := 2; output_tokens := 2 |} =
  usage_for ex_estimator (Some {| messages := [1; 2] |})
    (tokens_of_events ex_estimator
       (emitted (ex_convert (Some {| messages := [1; 2] |}) [data_line (stringify hi_chunk)]))).
Proof.
  split; [vm_compute; repeat first [left; reflexivity | right]|]. unfold ex_convert.
  apply (proj1 (C6_stop_usage ex_random_id nat ex_parse_chunk ex_parse_json ex_estimator
                  (Some {| messages := [1; 2] |})
                  (Some {| chunks := [data_line (stringify hi_chunk)]; read_end := ReadDone |}) 0)).
  vm_compute. repeat first [left; reflexivity | right].
Defined.

Lemma C7_witness : exists usage,
  emitted (ex_convert None [data_line (stringify mixed_chunk)]) =
  MessageStart (ex_random_id 0) ::
    triple 0 (CBText EmptyString) (TextDelta "A") ++
    triple 0 (CBToolUse (ex_random_id 1) "lookup" (JObj []))
           (InputJsonDelta (stringify (safeJsonParse ex_parse_json q_args))) ++
    [MessageStop usage].
Proof.
  apply (proj2 (C7_mixed_chunk_order ex_random_id nat ex_parse_chunk ex_parse_json ex_estimator
                  (stringify mixed_chunk) "A" (lookup_call q_args) "lookup" q_args []
                  ltac:(vm_compute; reflexivity) ltac:(discriminate)
                  ltac:(vm_compute; reflexivity) ltac:(vm_compute; reflexivity)
                  ltac:(vm_compute; discriminate)) None 0).
Defined.

Lemma C8_witness :
  process_tool_calls ex_random_id nat ex_parse_json ex_estimator (mkHeap 0 0) 0
    [nameless_call; lookup_call q_args] =
  process_tool_calls ex_random_id nat ex_parse_json ex_estimator (mkHeap 0 0) 0
    [lookup_call q_args].
Proof.
  rewrite (proj2 (C8_tool_fragment_gate ex_random_id nat ex_parse_json ex_estimator)
             [nameless_call; lookup_call q_args]).
  reflexivity.
Defined.

Lemma C9_witness :
  process_tool_calls ex_random_id nat ex_parse_json ex_estimator (mkHeap 0 0) 0
    [lookup_call "not json"] =
  (mkHeap 1 (0 + estimate ex_estimator "lookup" + estimate ex_estimator "{}"), 1,
   triple 0 (CBToolUse (ex_random_id 0) "lookup" (JObj [])) (InputJsonDelta "{}") ++ []).
Proof.
  rewrite (proj1 (C9_malformed_arguments ex_random_id nat ex_parse_chunk ex_parse_json ex_estimator)
             (mkHeap 0 0) 0 (lookup_call "not json") [] "lookup" "not json"
             ltac:(vm_compute; reflexivity) ltac:(vm_compute; reflexivity)).
  reflexivity.
Defined.

(** ** Properties of the rest of the code *)

Lemma json_size_arr : forall x l, In x l -> json_size x < json_size (JArr l).
Proof.
  intros x l H. induction l as [|y l IH]; [destruct H|].
  simpl in *. destruct H as [<-|H]; [lia|]. specialize (IH H). lia.
Qed.

Lemma json_size_obj : forall k x kvs, In (k, x) kvs -> json_size x < json_size (JObj kvs).
Proof.
  intros k x kvs H. induction kvs as [|[k' y] kvs IH]; [destruct H|].
  simpl in *. destruct H as [E|H]; [injection E as <- <-; lia|]. specialize (IH H). lia.
Qed.

Lemma json_size_ind (P : json -> Prop) :
  (forall s, (forall x, json_size x < json_size s -> P x) -> P s) -> forall s, P s.
Proof.
  intros H s. remember (json_size s) as n eqn:E.
  revert s E. induction n as [n IHn] using lt_wf_ind. intros s ->.
  apply H. intros x Hx. exact (IHn _ Hx x eq_refl).
Qed.

Lemma type_is_string_eq : forall kvs,
  type_is_string kvs =
  match find (fun kv => String.eqb (fst kv) "type") kvs with
  | Some (_, x) => jstr_string x
  | None => false
  end.
Proof.
  intros kvs. unfold type_is_string, field.
  destruct (find _ kvs) as [[k x]|]; [destruct x|]; reflexivity.
Qed.

Lemma find_app_cons {A} (f : A -> bool) d x r :
  find f (d ++ x :: r) =
  match find f d with Some y => Some y | None => if f x then Some x else find f r end.
Proof. induction d as [|a d IH]; simpl; [reflexivity|]. destruct (f a); auto. Qed.

Lemma find_app {A} (f : A -> bool) d r :
  find f (d ++ r) = match find f d with Some y => Some y | None => find f r end.
Proof. induction d as [|a d IH]; simpl; [reflexivity|]. destruct (f a); auto. Qed.

(** Replacing or dropping a member other than [type] leaves
    [cleaned.type] alone. *)
Lemma type_is_string_other : forall d k v r,
  String.eqb k "type" = false ->
  type_is_string (d ++ (k, v) :: r) = type_is_string (d ++ r).
Proof.
  intros d k v r Hk. rewrite !type_is_string_eq, find_app_cons, find_app. simpl. rewrite Hk.
  destruct (find _ d) as [[]|]; reflexivity.
Qed.

Lemma type_is_string_same : forall d k v v' r,
  jstr_string v' = jstr_string v ->
  type_is_string (d ++ (k, v') :: r) = type_is_string (d ++ (k, v) :: r).
Proof.
  intros d k v v' r H. rewrite !type_is_string_eq, !find_app_cons. simpl.
  destruct (find _ d) as [[]|]; [reflexivity|].
  destruct (String.eqb k "type"); [exact H|reflexivity].
Qed.

Lemma key_action_type : forall t v, key_action t "type" v <> KDrop.
Proof.
  intros t v. unfold key_action. simpl.
  destruct (is_object v), (is_array v); simpl; discriminate.
Qed.

Lemma jstr_string_clean_object : forall v, is_object v = true ->
  jstr_string (cleanJsonSchema v) = false /\ jstr_string v = false.
Proof. intros [] H; simpl in H; try discriminate; split; reflexivity. Qed.

Lemma app_cons_snoc {A} (d : list A) x l : d ++ x :: l = (d ++ [x]) ++ l.
Proof. rewrite <- app_assoc. reflexivity. Qed.

Lemma key_action_clean_object : forall t k v, key_action t k v = KClean -> is_object v = true.
Proof.
  intros t k v. unfold key_action.
  destruct (_ || _); [discriminate|].
  destruct (String.eqb k "enum" && is_array v); [discriminate|].
  destruct (String.eqb k "format" && t); [discriminate|].
  destruct (is_object v); [reflexivity|].
  rewrite !andb_false_r. simpl. discriminate.
Qed.

Lemma key_action_drop_not_type : forall t k v, key_action t k v = KDrop -> String.eqb k "type" = false.
Proof.
  intros t k v H. destruct (String.eqb k "type") eqn:E; [|reflexivity].
  apply String.eqb_eq in E. subst k. exfalso. exact (key_action_type t v H).
Qed.

Lemma type_is_string_member_out : forall t kvs r d,
  type_is_string (d ++ flat_map (member_out cleanJsonSchema t) kvs ++ r) = type_is_string (d ++ kvs ++ r).
Proof.
  intros t kvs r. induction kvs as [|[k v] kvs IH]; intros d; [reflexivity|].
  simpl. rewrite <- app_assoc. destruct (key_action t k v) eqn:Ea; simpl.
  - rewrite IH, type_is_string_other by exact (key_action_drop_not_type t k v Ea). reflexivity.
  - rewrite app_cons_snoc, IH, <- app_assoc. reflexivity.
  - rewrite app_cons_snoc, IH, <- app_assoc. simpl. apply type_is_string_same.
    destruct (jstr_string_clean_object v (key_action_clean_object t k v Ea)) as [-> ->].
    reflexivity.
Qed.

Lemma clean_members_spec : forall kvs done,
  clean_members cleanJsonSchema done kvs =
  done ++ flat_map (member_out cleanJsonSchema (type_is_string (done ++ kvs))) kvs.
Proof.
  induction kvs as [|[k v] kvs IH]; intros done; simpl; [symmetry; apply app_nil_r|].
  set (t := type_is_string (done ++ (k, v) :: kvs)).
  assert (Hinv : forall o, o = member_out cleanJsonSchema t (k, v) ->
            type_is_string ((done ++ o) ++ kvs) = t).
  { intros o ->. rewrite <- app_assoc. subst t.
    pose proof (type_is_string_member_out (type_is_string (done ++ (k, v) :: kvs)) [(k, v)] kvs done) as H.
    simpl in H. rewrite app_nil_r in H. exact H. }
  unfold member_out in Hinv.
  destruct (key_action t k v) eqn:Ea.
  - specialize (Hinv [] eq_refl). rewrite app_nil_r in Hinv.
    rewrite IH, Hinv. reflexivity.
  - specialize (Hinv _ eq_refl). rewrite IH, Hinv, <- app_assoc. reflexivity.
  - specialize (Hinv _ eq_refl). rewrite IH, Hinv, <- app_assoc. reflexivity.
Qed.

Lemma digits_fuel_digit : forall fuel n d r, (d < 10)%N ->
  exists d' r', (d' < 10)%N /\ digits_fuel fuel n (String (digit_char d) r) = String (digit_char d') r'.
Proof.
  induction fuel as [|f IH]; intros n d r Hd; simpl; [exists d, r; auto|].
  destruct (N.eqb (n / 10) 0).
  - exists (n mod 10)%N, (String (digit_char d) r). split; [apply N.mod_lt; lia|reflexivity].
  - apply IH. apply N.mod_lt. lia.
Qed.

Lemma N_to_string_digit : forall n, digit_key (N_to_string n).
Proof.
  intros n. unfold N_to_string, digit_key. simpl digits_fuel.
  destruct (N.eqb (n / 10) 0).
  - exists (n mod 10)%N, EmptyString. split; [apply N.mod_lt; lia|reflexivity].
  - apply digits_fuel_digit. apply N.mod_lt. lia.
Qed.

Lemma digit_char_cases : forall d, (d < 10)%N ->
  digit_char d = "0"%char \/ digit_char d = "1"%char \/ digit_char d = "2"%char \/
  digit_char d = "3"%char \/ digit_char d = "4"%char \/ digit_char d = "5"%char \/
  digit_char d = "6"%char \/ digit_char d = "7"%char \/ digit_char d = "8"%char \/
  digit_char d = "9"%char.
Proof.
  intros d Hd.
  assert (d = 0 \/ d = 1 \/ d = 2 \/ d = 3 \/ d = 4 \/ d = 5 \/ d = 6 \/ d = 7 \/ d = 8 \/ d = 9)%N
    as H by lia.
  repeat destruct H as [->|H]; [left; reflexivity|..];
    try (subst d; right; right; right; right; right; right; right; right; right; reflexivity);
    repeat (try (left; reflexivity); right).
Qed.

Lemma key_action_digit : forall t k v, digit_key k ->
  key_action t k v = if is_object v && negb (is_array v) then KClean else KKeep.
Proof.
  intros t k v (d & r & Hd & ->).
  destruct (digit_char_cases d Hd) as [E|[E|[E|[E|[E|[E|[E|[E|[E|E]]]]]]]]];
    rewrite E; unfold key_action; simpl; reflexivity.
Qed.

Lemma type_is_string_digit : forall l, Forall (fun kv => digit_key (fst kv)) l ->
  type_is_string l = false.
Proof.
  intros l H. rewrite type_is_string_eq. induction H as [|[k v] l (d & r & Hd & Ek) _ IH]; [reflexivity|].
  simpl in Ek |- *. subst k.
  destruct (digit_char_cases d Hd) as [E|[E|[E|[E|[E|[E|[E|[E|[E|E]]]]]]]]];
    rewrite E; simpl; exact IH.
Qed.

Lemma index_members_digit : forall l i, Forall (fun kv => digit_key (fst kv)) (index_members i l).
Proof.
  induction l as [|x l IH]; intros i; simpl; constructor; [apply N_to_string_digit|apply IH].
Qed.

Lemma clean_elements_spec : forall l i done,
  Forall (fun kv => digit_key (fst kv)) done ->
  clean_elements cleanJsonSchema done i l = done ++ index_members i (map clean_elem l).
Proof.
  induction l as [|x l IH]; intros i done Hd; simpl; [symmetry; apply app_nil_r|].
  rewrite type_is_string_digit
    by (apply Forall_app; split; [exact Hd|apply (index_members_digit (x :: l) i)]).
  rewrite key_action_digit by apply N_to_string_digit.
  unfold clean_elem. destruct (is_object x && negb (is_array x));
    rewrite IH, <- app_assoc; try reflexivity;
    apply Forall_app; split; [exact Hd| |exact Hd|];
    repeat constructor; apply N_to_string_digit.
Qed.

Lemma key_action_drop_iff : forall t k v,
  key_action t k v = KDrop <-> kept_key t k = false.
Proof.
  intros t k v. unfold key_action, kept_key, dropped_key.
  destruct (String.eqb k "$schema" || String.eqb k "additionalProperties"
            || String.eqb k "title" || String.eqb k "examples"); simpl; [tauto|].
  destruct (String.eqb k "enum") eqn:Ee; simpl.
  - apply String.eqb_eq in Ee. subst k. simpl.
    destruct (is_array v), (is_object v); simpl; split; discriminate.
  - destruct (String.eqb k "format" && t); simpl; [tauto|].
    destruct (String.eqb k "properties" && is_object v); [split; discriminate|].
    destruct (String.eqb k "items" && is_object v); [split; discriminate|].
    destruct (is_object v && negb (is_array v)); split; discriminate.
Qed.

Lemma member_out_keys : forall t kv,
  map fst (member_out cleanJsonSchema t kv) = if kept_key t (fst kv) then [fst kv] else [].
Proof.
  intros t [k v]. simpl. destruct (kept_key t k) eqn:E.
  - destruct (key_action t k v) eqn:Ea; [|reflexivity|reflexivity].
    apply key_action_drop_iff in Ea. congruence.
  - apply (key_action_drop_iff t k v) in E. rewrite E. reflexivity.
Qed.

Lemma In_member_out : forall t kvs k w,
  In (k, w) (flat_map (member_out cleanJsonSchema t) kvs) ->
  exists v, In (k, v) kvs /\ kept_key t k = true /\
    ((key_action t k v = KKeep /\ w = v) \/ (key_action t k v = KClean /\ w = cleanJsonSchema v)).
Proof.
  intros t kvs k w H. apply in_flat_map in H as ([k' v] & Hin & H). simpl in H.
  destruct (key_action t k' v) eqn:Ea; simpl in H; [destruct H| |];
    destruct H as [E|[]]; injection E as E1 E2; subst k' w; exists v; (split; [exact Hin|]);
    (split; [destruct (kept_key t k) eqn:Ek; [reflexivity|];
             apply (key_action_drop_iff t k v) in Ek; congruence|]); auto.
Qed.

Lemma key_action_flags : forall t k v v',
  is_object v' = is_object v -> is_array v' = is_array v -> key_action t k v' = key_action t k v.
Proof. intros t k v v' Ho Ha. unfold key_action. rewrite Ho, Ha. reflexivity. Qed.

Lemma key_action_clean_stable : forall t k v,
  key_action t k v = KClean -> key_action t k (cleanJsonSchema v) = KClean.
Proof.
  intros t k v H. destruct v as [| | | |l|kvs]; try exact H.
  revert H. unfold key_action. simpl.
  destruct (String.eqb k "$schema" || String.eqb k "additionalProperties"
            || String.eqb k "title" || String.eqb k "examples"); [discriminate|].
  destruct (String.eqb k "enum"); simpl; [discriminate|].
  destruct (String.eqb k "format" && t); [discriminate|].
  destruct (String.eqb k "properties"); simpl; [reflexivity|].
  destruct (String.eqb k "items"); simpl; [reflexivity|discriminate].
Qed.

Lemma cleanJsonSchema_obj : forall kvs,
  cleanJsonSchema (JObj kvs) = JObj (flat_map (member_out cleanJsonSchema (type_is_string kvs)) kvs).
Proof. intros kvs. simpl. rewrite clean_members_spec. reflexivity. Qed.

Lemma cleanJsonSchema_arr : forall l,
  cleanJsonSchema (JArr l) = JObj (index_members 0 (map clean_elem l)).
Proof. intros l. simpl. rewrite clean_elements_spec by constructor. reflexivity. Qed.

Lemma type_is_string_cleaned : forall t kvs,
  type_is_string (flat_map (member_out cleanJsonSchema t) kvs) = type_is_string kvs.
Proof.
  intros t kvs. pose proof (type_is_string_member_out t kvs [] []) as H.
  rewrite !app_nil_r in H. exact H.
Qed.

(** X1: cleaning an already cleaned schema changes nothing. *)
Theorem cleanJsonSchema_idempotent : forall schema,
  cleanJsonSchema (cleanJsonSchema schema) = cleanJsonSchema schema.
Proof.
  apply json_size_ind. intros s IH. destruct s as [| | | |l|kvs]; try reflexivity.
  - rewrite cleanJsonSchema_arr, cleanJsonSchema_obj.
    rewrite type_is_string_digit by apply index_members_digit. f_equal.
    assert (IHl : forall x, In x l -> cleanJsonSchema (cleanJsonSchema x) = cleanJsonSchema x)
      by (intros x Hx; apply IH; apply json_size_arr; exact Hx).
    clear IH. generalize 0. induction l as [|x l IHl']; intros i; [reflexivity|].
    simpl. rewrite key_action_digit by apply N_to_string_digit.
    rewrite IHl' by (intros y Hy; apply IHl; right; exact Hy).
    unfold clean_elem. destruct (is_object x && negb (is_array x)) eqn:Ex.
    + assert (Hc : is_object (cleanJsonSchema x) && negb (is_array (cleanJsonSchema x)) = true)
        by (destruct x; try discriminate; reflexivity).
      rewrite Hc, (IHl x) by (left; reflexivity). reflexivity.
    + rewrite Ex. reflexivity.
  - rewrite cleanJsonSchema_obj, cleanJsonSchema_obj, type_is_string_cleaned. f_equal.
    assert (IHm : forall k v, In (k, v) kvs -> cleanJsonSchema (cleanJsonSchema v) = cleanJsonSchema v)
      by (intros k v Hv; apply IH; eapply json_size_obj; exact Hv).
    clear IH. set (t := type_is_string kvs). clearbody t.
    induction kvs as [|[k v] kvs IHk]; [reflexivity|].
    simpl. rewrite flat_map_app, IHk by (intros k' v' H; apply (IHm k'); right; exact H).
    f_equal. destruct (key_action t k v) eqn:Ea; simpl.
    + reflexivity.
    + rewrite Ea. reflexivity.
    + rewrite (key_action_clean_stable t k v Ea), (IHm k v) by (left; reflexivity). reflexivity.
Qed.

(** X2: the keys of a cleaned object are its own keys in their order, minus [$schema], [additionalProperties], [title], [examples], and [format] when the object has [type: "string"]. *)
Theorem cleanJsonSchema_keys : forall kvs,
  map fst (members (cleanJsonSchema (JObj kvs))) =
  filter (kept_key (type_is_string kvs)) (map fst kvs).
Proof.
  intros kvs. rewrite cleanJsonSchema_obj. simpl members.
  set (t := type_is_string kvs). clearbody t.
  induction kvs as [|kv kvs IH]; [reflexivity|].
  simpl. rewrite map_app, member_out_keys, IH.
  destruct (kept_key t (fst kv)); reflexivity.
Qed.

Lemma digit_key_not_dropped : forall k, digit_key k -> dropped_key k = false.
Proof.
  intros k (d & r & Hd & ->).
  destruct (digit_char_cases d Hd) as [E|[E|[E|[E|[E|[E|[E|[E|[E|E]]]]]]]]];
    rewrite E; reflexivity.
Qed.

Lemma cleaned_keys_kept : forall s out, cleanJsonSchema s = JObj out ->
  forall k, In k (map fst out) -> dropped_key k = false.
Proof.
  intros s out H k Hk. destruct s as [| | | |l|kvs]; try discriminate.
  - rewrite cleanJsonSchema_arr in H. injection H as <-.
    pose proof (index_members_digit (map clean_elem l) 0) as Hd.
    apply in_map_iff in Hk as ([k' w] & <- & Hin).
    rewrite Forall_forall in Hd. apply digit_key_not_dropped. exact (Hd _ Hin).
  - rewrite cleanJsonSchema_obj in H. injection H as <-.
    apply in_map_iff in Hk as ([k' w] & <- & Hin).
    apply In_member_out in Hin as (v & _ & Hkept & _). simpl.
    unfold kept_key in Hkept. destruct (dropped_key k'); [discriminate|reflexivity].
Qed.

Lemma field_In : forall k kvs x, field k (JObj kvs) = Some x -> In (k, x) kvs.
Proof.
  intros k kvs x H. simpl in H.
  destruct (find _ kvs) as [[k' y]|] eqn:E; [|discriminate]. injection H as <-.
  pose proof (find_some _ _ E) as [Hin Hk]. apply String.eqb_eq in Hk. simpl in Hk. subst k'.
  exact Hin.
Qed.

(** X3: a cleaned schema object has none of the four dropped keys, nor has its [properties] object, so a property named [title] or [examples] is removed. *)
Theorem cleanJsonSchema_no_dropped_keys : forall schema out,
  cleanJsonSchema schema = JObj out ->
  (forall k, dropped_key k = true -> ~ In k (map fst out)) /\
  (forall P, field "properties" (JObj out) = Some (JObj P) ->
     forall k, dropped_key k = true -> ~ In k (map fst P)).
Proof.
  intros s out H. split.
  - intros k Hk Hin. rewrite (cleaned_keys_kept s out H k Hin) in Hk. discriminate.
  - intros P HP k Hk Hin. apply field_In in HP.
    destruct s as [| | | |l|kvs]; try discriminate.
    + rewrite cleanJsonSchema_arr in H. injection H as <-.
      pose proof (index_members_digit (map clean_elem l) 0) as Hd.
      rewrite Forall_forall in Hd. apply Hd in HP. simpl in HP.
      destruct HP as (d & r & Hd' & E).
      destruct (digit_char_cases d Hd') as [F|[F|[F|[F|[F|[F|[F|[F|[F|F]]]]]]]]];
        rewrite F in E; discriminate E.
    + rewrite cleanJsonSchema_obj in H. injection H as <-.
      apply In_member_out in HP as (v & _ & _ & [[Ea Ew]|[_ Ew]]).
      * subst v. unfold key_action in Ea. simpl in Ea. discriminate.
      * symmetry in Ew. rewrite (cleaned_keys_kept v P Ew k Hin) in Hk. discriminate.
Qed.

(** X4: an array-valued member with a kept key other than [properties] and [items] is copied as is: schemas inside [anyOf] or [allOf] are not cleaned. *)
Theorem cleanJsonSchema_arrays_kept : forall kvs k l,
  In (k, JArr l) kvs -> kept_key (type_is_string kvs) k = true ->
  k <> "properties" -> k <> "items" ->
  In (k, JArr l) (members (cleanJsonSchema (JObj kvs))).
Proof.
  intros kvs k l Hin Hk Hp Hi. rewrite cleanJsonSchema_obj. simpl members.
  apply in_flat_map. exists (k, JArr l). split; [exact Hin|]. simpl.
  replace (key_action (type_is_string kvs) k (JArr l)) with KKeep; [left; reflexivity|].
  unfold kept_key in Hk. apply negb_true_iff, orb_false_iff in Hk as [Hd Hf].
  unfold dropped_key in Hd. unfold key_action. rewrite Hd. simpl.
  destruct (String.eqb k "enum"); [reflexivity|]. simpl. rewrite Hf.
  apply String.eqb_neq in Hp, Hi. rewrite Hp, Hi. reflexivity.
Qed.

Lemma no_newline_app : forall a b, no_newline (a ++ b) = no_newline a && no_newline b.
Proof. induction a as [|c a IH]; intros b; simpl; [reflexivity|]. rewrite IH. apply andb_assoc. Qed.

Lemma no_newline_String : forall c s, Ascii.eqb c nl = false -> no_newline (String c s) = no_newline s.
Proof. intros c s H. simpl. rewrite H. reflexivity. Qed.

Lemma no_newline_escape_char : forall c, no_newline (escape_char c) = true.
Proof.
  intros [b0 b1 b2 b3 b4 b5 b6 b7].
  destruct b0, b1, b2, b3, b4, b5, b6, b7; vm_compute; reflexivity.
Qed.

Lemma no_newline_escape : forall s, no_newline (escape s) = true.
Proof.
  induction s as [|c s IH]; [reflexivity|]. simpl.
  rewrite no_newline_app, no_newline_escape_char, IH. reflexivity.
Qed.

Lemma no_newline_quote : forall s, no_newline (quote s) = true.
Proof.
  intros s. unfold quote. simpl. rewrite no_newline_app, no_newline_escape. reflexivity.
Qed.

Lemma no_newline_digits : forall fuel n acc, no_newline acc = true ->
  no_newline (digits_fuel fuel n acc) = true.
Proof.
  induction fuel as [|f IH]; intros n acc H; simpl; [exact H|].
  assert (Hc : no_newline (String (digit_char (n mod 10)) acc) = true).
  { simpl. rewrite H, andb_true_r.
    assert (Hd : (n mod 10 < 10)%N) by (apply N.mod_lt; lia).
    destruct (digit_char_cases _ Hd) as [E|[E|[E|[E|[E|[E|[E|[E|[E|E]]]]]]]]];
      rewrite E; reflexivity. }
  destruct (N.eqb (n / 10) 0); [exact Hc|]. apply IH. exact Hc.
Qed.

Lemma no_newline_Z : forall z, no_newline (Z_to_string z) = true.
Proof.
  intros [|p|p]; unfold Z_to_string, N_to_string; try (apply no_newline_digits; reflexivity).
Qed.

Lemma stringify_arr : forall l, stringify (JArr l) = ("[" ++ items_text l ++ "]")%string.
Proof. reflexivity. Qed.

Lemma stringify_obj : forall kvs, stringify (JObj kvs) = ("{" ++ members_text kvs ++ "}")%string.
Proof. reflexivity. Qed.

Lemma no_newline_stringify : forall v, no_newline (stringify v) = true.
Proof.
  apply json_size_ind. intros v IH. destruct v as [|[]|z|s|l|kvs]; try reflexivity.
  - apply no_newline_Z.
  - apply no_newline_quote.
  - rewrite stringify_arr, !no_newline_app, andb_true_r. cbn [no_newline].
    assert (H : forall x, In x l -> no_newline (stringify x) = true)
      by (intros x Hx; apply IH; apply json_size_arr; exact Hx).
    clear IH. induction l as [|x l IHl]; [reflexivity|].
    destruct l as [|y l].
    + apply H. left. reflexivity.
    + cbn [items_text]. rewrite !no_newline_app, H by (left; reflexivity). cbn [no_newline].
      apply IHl. intros z Hz. apply H. right. exact Hz.
  - rewrite stringify_obj, !no_newline_app, andb_true_r. cbn [no_newline].
    assert (H : forall k x, In (k, x) kvs -> no_newline (stringify x) = true)
      by (intros k x Hx; apply IH; eapply json_size_obj; exact Hx).
    clear IH. induction kvs as [|[k x] kvs IHk]; [reflexivity|].
    destruct kvs as [|kv' kvs].
    + cbn [members_text]. rewrite !no_newline_app, no_newline_quote, (H k x) by (left; reflexivity).
      reflexivity.
    + cbn [members_text]. rewrite !no_newline_app, no_newline_quote, (H k x) by (left; reflexivity).
      cbn [no_newline]. apply IHk. intros k' z Hz. apply (H k'). right. exact Hz.
Qed.

Lemma split_nl_line : forall a b, no_newline a = true ->
  split_nl (a ++ String nl b) = a :: split_nl b.
Proof.
  induction a as [|c a IH]; intros b H; [reflexivity|].
  simpl in H |- *. apply andb_prop in H as [Hc Ha]. apply negb_true_iff in Hc.
  rewrite IH by exact Ha. rewrite Hc. reflexivity.
Qed.

(** X5: an array given as a schema comes back as an object keyed by the indices "0", "1", ...; its object elements are cleaned, the others kept. *)
Theorem cleanJsonSchema_array_object : forall l,
  cleanJsonSchema (JArr l) = JObj (index_members 0 (map clean_elem l)).
Proof. exact cleanJsonSchema_arr. Qed.

(** X6: every event written to the stream is exactly one [event:] line, one [data:] line with the JSON payload on a single line, and a blank line. *)
Theorem sse_event_frame : forall e,
  split_nl (sse_event e) =
  [("event: " ++ event_type e)%string; ("data: " ++ stringify (event_json e))%string;
   EmptyString; EmptyString].
Proof.
  intros e. unfold sse_event.
  rewrite <- string_app_assoc, split_nl_line
    by (rewrite no_newline_app; destruct e; reflexivity).
  rewrite <- string_app_assoc, split_nl_line
    by (rewrite no_newline_app, no_newline_stringify; reflexivity).
  reflexivity.
Qed.

Lemma convertMessages_loop_app : forall ms acc,
  convertMessages_loop acc ms = acc ++ flat_map convertMessage ms.
Proof.
  induction ms as [|m ms IH]; intros acc; simpl; [symmetry; apply app_nil_r|].
  rewrite IH, app_assoc. reflexivity.
Qed.

Lemma convertMessages_flat : forall ms, convertMessages ms = flat_map convertMessage ms.
Proof. intros ms. apply convertMessages_loop_app. Qed.

Lemma collect_contents_spec : forall bs,
  collect_contents bs =
  (flat_map block_text bs, flat_map block_tool_call bs, flat_map block_tool_result bs).
Proof.
  induction bs as [|b bs IH]; [reflexivity|]. simpl. rewrite IH. destruct b; reflexivity.
Qed.

Lemma openai_role_not_tool : forall r, String.eqb (openai_role r) "tool" = false.
Proof. intros r. unfold openai_role. destruct (String.eqb r "assistant"); reflexivity. Qed.

Lemma tool_messages_no_calls : forall R, flat_map out_tool_calls (map tool_message R) = [].
Proof. induction R as [|x R IH]; [reflexivity|]. exact IH. Qed.

Lemma convertMessage_calls : forall m,
  flat_map out_tool_calls (convertMessage m) = claude_tool_calls m.
Proof.
  intros [r [s|bs]]; [reflexivity|]. unfold convertMessage, claude_tool_calls. cbn [message_content role].
  rewrite collect_contents_spec.
  set (T := flat_map block_text bs). set (C := flat_map block_tool_call bs).
  set (R := flat_map block_tool_result bs).
  rewrite flat_map_app, tool_messages_no_calls, app_nil_r.
  destruct (0 <? length C) eqn:Ec.
  - rewrite orb_true_r. simpl. unfold out_tool_calls. simpl. apply app_nil_r.
  - assert (C = []) as -> by (destruct C; [reflexivity|discriminate]).
    destruct (0 <? length T); reflexivity.
Qed.

(** X7: the tool calls of the converted messages are the [tool_use] blocks of the Claude messages, in order, with the input serialised as the arguments. *)
Theorem convertMessages_tool_calls : forall ms,
  flat_map out_tool_calls (convertMessages ms) = flat_map claude_tool_calls ms.
Proof.
  intros ms. rewrite convertMessages_flat. induction ms as [|m ms IH]; [reflexivity|].
  simpl. rewrite flat_map_app, convertMessage_calls, IH. reflexivity.
Qed.

Lemma filter_tool_messages : forall R, filter is_tool_message (map tool_message R) = map tool_message R.
Proof. induction R as [|x R IH]; [reflexivity|]. simpl. rewrite IH. reflexivity. Qed.

Lemma convertMessage_split : forall m, exists main,
  convertMessage m = main ++ map tool_message (claude_tool_results m) /\
  (main = [] <-> exists bs, message_content m = MCBlocks bs /\
                            flat_map block_text bs = [] /\ flat_map block_tool_call bs = []) /\
  (main = [] \/ exists om, main = [om] /\ o_role om = openai_role (role m) /\
                           o_tool_call_id om = None /\
                           (o_content om <> None \/ exists c cs, o_tool_calls om = Some (c :: cs))).
Proof.
  intros [r [s|bs]].
  - exists (convertMessage {| role := r; message_content := MCString s |}).
    split; [symmetry; apply app_nil_r|]. split.
    + split; [discriminate|]. intros (bs & E & _). discriminate.
    + right. eexists. split; [reflexivity|]. simpl. repeat split. left. discriminate.
  - unfold convertMessage, claude_tool_results. cbn [message_content role].
    rewrite collect_contents_spec.
    remember (flat_map block_text bs) as T eqn:HT.
    remember (flat_map block_tool_call bs) as C eqn:HC.
    eexists. split; [reflexivity|].
    destruct T as [|t T'], C as [|c C']; simpl.
    + split; [|left; reflexivity]. split; [intros _; exists bs; auto|reflexivity].
    + split.
      * split; [discriminate|]. intros (bs' & E & _ & Hc). injection E as <-. congruence.
      * right. eexists. split; [reflexivity|]. simpl. repeat split. right. eauto.
    + split.
      * split; [discriminate|]. intros (bs' & E & Ht & _). injection E as <-. congruence.
      * right. eexists. split; [reflexivity|]. simpl. repeat split. left. discriminate.
    + split.
      * split; [discriminate|]. intros (bs' & E & Ht & _). injection E as <-. congruence.
      * right. eexists. split; [reflexivity|]. simpl. repeat split. left. discriminate.
Qed.

(** X8: a Claude message becomes at most one user or assistant message, which carries text or tool calls, followed by one [tool] message per [tool_result] block. *)
Theorem convertMessage_shape : forall m, exists main,
  convertMessage m = main ++ map tool_message (claude_tool_results m) /\
  (main = [] <-> exists bs, message_content m = MCBlocks bs /\
                            flat_map block_text bs = [] /\ flat_map block_tool_call bs = []) /\
  (main = [] \/ exists om, main = [om] /\ o_role om = openai_role (role m) /\
                           o_tool_call_id om = None /\
                           (o_content om <> None \/ exists c cs, o_tool_calls om = Some (c :: cs))).
Proof. exact convertMessage_split. Qed.

(** X9: the [tool] messages of the conversion are exactly the [tool_result] blocks of the Claude messages, in order. *)
Theorem convertMessages_tool_results : forall ms,
  filter is_tool_message (convertMessages ms) = map tool_message (flat_map claude_tool_results ms).
Proof.
  intros ms. rewrite convertMessages_flat. induction ms as [|m ms IH]; [reflexivity|].
  simpl. rewrite filter_app, IH, map_app. f_equal.
  destruct (convertMessage_split m) as (main & -> & _ & Hmain).
  rewrite filter_app, filter_tool_messages.
  destruct Hmain as [->|(om & -> & Hr & _)]; [reflexivity|].
  simpl. unfold is_tool_message. rewrite Hr, openai_role_not_tool. reflexivity.
Qed.


Lemma split_char_nonempty : forall c s, split_char c s <> [].
Proof.
  intros c [|d s]; simpl; [discriminate|].
  destruct (Ascii.eqb d c); [discriminate|]. destruct (split_char c s); discriminate.
Qed.

Lemma split_char_no_char : forall c s x, In x (split_char c s) -> no_char c x = true.
Proof.
  intros c s. induction s as [|d s IH]; simpl; intros x Hx.
  - destruct Hx as [<-|[]]. reflexivity.
  - destruct (Ascii.eqb d c) eqn:E.
    + destruct Hx as [<-|Hx]; [reflexivity|]. auto.
    + destruct (split_char c s) as [|h t] eqn:Es.
      * destruct Hx as [<-|[]]. simpl. rewrite E. reflexivity.
      * destruct Hx as [<-|Hx].
        -- simpl. rewrite E. apply IH. left. reflexivity.
        -- apply IH. right. exact Hx.
Qed.

Lemma split_char_app : forall c x y, no_char c x = true ->
  split_char c (x ++ y) =
  match split_char c y with h :: t => (x ++ h)%string :: t | [] => [x] end.
Proof.
  intros c x y. induction x as [|d x IH]; simpl; intros Hx.
  - pose proof (split_char_nonempty c y) as Hne. destruct (split_char c y); [contradiction|].
    reflexivity.
  - apply andb_true_iff in Hx as [Hd Hx]. apply negb_true_iff in Hd. rewrite Hd, IH by exact Hx.
    pose proof (split_char_nonempty c y) as Hne. destruct (split_char c y); [contradiction|].
    reflexivity.
Qed.

Lemma split_char_no_char_id : forall c x, no_char c x = true -> split_char c x = [x].
Proof.
  intros c x Hx. rewrite <- (string_app_nil_r x) at 1. rewrite split_char_app by exact Hx.
  simpl. rewrite string_app_nil_r. reflexivity.
Qed.

Lemma split_char_sep : forall c j, split_char c (String c EmptyString ++ j) = EmptyString :: split_char c j.
Proof. intros c j. simpl. rewrite Ascii.eqb_refl. reflexivity. Qed.

(** [join] and [split] are inverse on segments free of the separator. *)
Lemma split_char_join : forall c segs, segs <> [] ->
  (forall x, In x segs -> no_char c x = true) ->
  split_char c (join (String c EmptyString) segs) = segs.
Proof.
  intros c segs. induction segs as [|x segs IH]; intros Hne H; [contradiction|].
  destruct segs as [|y segs].
  - simpl. apply split_char_no_char_id. apply H. left. reflexivity.
  - change (join (String c EmptyString) (x :: y :: segs))
      with (x ++ String c EmptyString ++ join (String c EmptyString) (y :: segs))%string.
    rewrite split_char_app by (apply H; left; reflexivity).
    rewrite split_char_sep. rewrite IH by (discriminate || (intros z Hz; apply H; right; exact Hz)).
    rewrite string_app_nil_r. reflexivity.
Qed.

Lemma In_pathParts : forall p x, In x (pathParts p) -> x <> EmptyString /\ no_char slash x = true.
Proof.
  intros p x Hx. unfold pathParts in Hx. apply filter_In in Hx as [Hx He].
  split.
  - intros ->. discriminate.
  - exact (split_char_no_char _ _ _ Hx).
Qed.

Lemma length_ge3_shape : forall (l : list string), 3 <= List.length l ->
  exists t segs x y, l = t :: segs ++ [x; y].
Proof.
  intros l Hl. destruct l as [|t l]; simpl in Hl; [lia|].
  destruct (rev l) as [|y r] eqn:E1.
  - apply (f_equal (@List.length string)) in E1. rewrite length_rev in E1. simpl in E1. lia.
  - destruct r as [|x r].
    + apply (f_equal (@List.length string)) in E1. rewrite length_rev in E1. simpl in E1. lia.
    + exists t, (rev r), x, y. f_equal.
      rewrite <- (rev_involutive l), E1. simpl. rewrite <- app_assoc. reflexivity.
Qed.

Lemma shape_slices : forall (t : string) segs x y,
  let l := t :: segs ++ [x; y] in
  skipn (List.length l - 2) l = [x; y] /\
  firstn (List.length l - 2 - 1) (skipn 1 l) = segs /\
  nth 0 l EmptyString = t.
Proof.
  intros t segs x y l. subst l.
  replace (List.length (t :: segs ++ [x; y]) - 2) with (S (List.length segs))
    by (cbn [List.length]; rewrite length_app; cbn [List.length]; lia).
  replace (S (List.length segs) - 1) with (List.length segs) by lia.
  split; [|split; [|reflexivity]].
  - cbn [skipn]. rewrite skipn_app, skipn_all, Nat.sub_diag. reflexivity.
  - cbn [skipn]. rewrite firstn_app, firstn_all, Nat.sub_diag. apply app_nil_r.
Qed.

Lemma join_empty : forall segs, (forall x, In x segs -> x <> EmptyString) ->
  (String.eqb (join "/" segs) EmptyString = true <-> segs = []).
Proof.
  intros [|x segs] H; simpl; [split; reflexivity|].
  split; [|discriminate]. intros E. apply String.eqb_eq in E. exfalso.
  destruct x as [|d x]; [exact (H EmptyString (or_introl eq_refl) eq_refl)|].
  destruct segs; discriminate.
Qed.

(** [handle] after the method check, on the shape of the path. *)
Lemma handle_shape : forall p key body t segs,
  pathParts p = t :: segs ++ ["v1"; "messages"] ->
  handle "POST" p key body =
  if String.eqb t EmptyString || String.eqb (join "/" segs) EmptyString then
    HResponse 400 "Missing type or provider_url in path" else
  match key with
  | None => HResponse 401 "Missing x-api-key header"
  | Some apiKey =>
      if String.eqb apiKey EmptyString then HResponse 401 "Missing x-api-key header" else
      if String.eqb t "gemini" then
        match body with None => HThrows | Some r => HForward PGemini (join "/" segs) apiKey r end
      else if String.eqb t "openai" then
        match body with None => HThrows | Some r => HForward POpenAI (join "/" segs) apiKey r end
      else HResponse 400 "Unsupported type"
  end.
Proof.
  intros p key body t segs E. unfold handle. simpl negb. cbv iota. rewrite E.
  destruct (shape_slices t segs "v1" "messages") as (E1 & E2 & E3).
  rewrite E1, E2. cbn [nth]. simpl length. rewrite length_app. simpl.
  replace (S (List.length segs + 2) <? 3) with false by (symmetry; apply Nat.ltb_ge; lia).
  reflexivity.
Qed.

(** [handle] after the method check, on a path that does not have that shape. *)
Lemma handle_no_shape : forall p key body,
  (forall t segs, pathParts p <> t :: segs ++ ["v1"; "messages"]) ->
  handle "POST" p key body = HResponse 400 "Invalid path format. Expected: /{type}/{provider_url}/v1/messages"
  \/ handle "POST" p key body = HResponse 404 "Path must end with /v1/messages".
Proof.
  intros p key body H. unfold handle. simpl negb. cbv iota.
  destruct (List.length (pathParts p) <? 3) eqn:L; [left; reflexivity|]. right.
  apply Nat.ltb_ge in L. destruct (length_ge3_shape _ L) as (t & segs & x & y & E).
  rewrite E. destruct (shape_slices t segs x y) as (E1 & E2 & E3). rewrite E1. cbn [nth].
  destruct (String.eqb x "v1") eqn:Ex; [|reflexivity].
  destruct (String.eqb y "messages") eqn:Ey; [|reflexivity].
  apply String.eqb_eq in Ex, Ey. subst x y. exfalso. exact (H t segs E).
Qed.

Lemma handle_not_post : forall m p key body, m <> "POST" -> handle m p key body = HResponse 405 "Method not allowed".
Proof.
  intros m p key body H. unfold handle. apply String.eqb_neq in H. rewrite H. reflexivity.
Qed.

Lemma shape_segs_nonempty : forall p t segs, pathParts p = t :: segs ++ ["v1"; "messages"] ->
  t <> EmptyString /\ (forall x, In x segs -> x <> EmptyString /\ no_char slash x = true).
Proof.
  intros p t segs E. split.
  - apply (In_pathParts p). rewrite E. left. reflexivity.
  - intros x Hx. apply (In_pathParts p). rewrite E. right. apply in_or_app. left. exact Hx.
Qed.

Ltac handle_cases m :=
  destruct (String.eqb m "POST") eqn:Em;
  [apply String.eqb_eq in Em; subst m
  | apply String.eqb_neq in Em; rewrite (handle_not_post _ _ _ _ Em)].

Lemma last_two_inj : forall (t t' : string) segs segs' x y x' y',
  t :: segs ++ [x; y] = t' :: segs' ++ [x'; y'] -> x = x' /\ y = y'.
Proof.
  intros t t' segs segs' x y x' y' E. injection E as _ E.
  change [x; y] with ([x] ++ [y]) in E. change [x'; y'] with ([x'] ++ [y']) in E.
  rewrite !app_assoc in E. apply app_inj_tail in E as [E Ey].
  apply app_inj_tail in E as [_ Ex]. auto.
Qed.

Lemma shape_inj : forall (t t' : string) segs segs',
  t :: segs ++ ["v1"; "messages"] = t' :: segs' ++ ["v1"; "messages"] -> t = t' /\ segs = segs'.
Proof.
  intros t t' segs segs' E. injection E as Et E. split; [exact Et|].
  apply app_inv_tail in E. exact E.
Qed.

Lemma shape_or : forall (l : list string),
  (exists t segs, l = t :: segs ++ ["v1"; "messages"]) \/
  (forall t segs, l <> t :: segs ++ ["v1"; "messages"]).
Proof.
  intros l. destruct (Nat.lt_ge_cases (List.length l) 3) as [L|L].
  - right. intros t segs ->. simpl in L. rewrite length_app in L. simpl in L. lia.
  - destruct (length_ge3_shape _ L) as (t & segs & x & y & ->).
    destruct (string_dec x "v1") as [Ex|Nx]; [destruct (string_dec y "messages") as [Ey|Ny]|].
    + left. subst x y. eauto.
    + right. intros t' segs' E. apply last_two_inj in E. tauto.
    + right. intros t' segs' E. apply last_two_inj in E. tauto.
Qed.

Lemma handle_forward_spec : forall m p key body impl b k r,
  handle m p key body = HForward impl b k r <->
  m = "POST" /\ key = Some k /\ k <> EmptyString /\ body = Some r /\
  exists t segs, pathParts p = t :: segs ++ ["v1"; "messages"] /\ segs <> [] /\
    b = join "/" segs /\
    (t = "gemini" /\ impl = PGemini \/ t = "openai" /\ impl = POpenAI).
Proof.
  intros m p key body impl b k r. handle_cases m.
  - destruct (shape_or (pathParts p)) as [(t & segs & E)|Hn].
    + rewrite (handle_shape p key body t segs E).
      destruct (shape_segs_nonempty p t segs E) as [Ht Hs].
      assert (Ht' : String.eqb t EmptyString = false) by (apply String.eqb_neq; exact Ht).
      rewrite Ht'. simpl orb.
      destruct (String.eqb (join "/" segs) EmptyString) eqn:Ej.
      * split; [discriminate|]. intros (_ & _ & _ & _ & t' & segs' & E' & Hne & _).
        rewrite E in E'. apply shape_inj in E' as [<- <-].
        apply (join_empty segs) in Ej; [contradiction|]. intros x Hx; apply Hs, Hx.
      * assert (Hne : segs <> []) by (intros ->; discriminate).
        destruct key as [k'|].
        2:{ split; [discriminate|]. intros (_ & Hk & _). discriminate. }
        destruct (String.eqb k' EmptyString) eqn:Ek.
        { split; [discriminate|]. intros (_ & Hk & Hk' & _). injection Hk as <-.
          apply String.eqb_eq in Ek. contradiction. }
        apply String.eqb_neq in Ek.
        destruct (String.eqb t "gemini") eqn:Eg; [|destruct (String.eqb t "openai") eqn:Eo].
        -- apply String.eqb_eq in Eg. subst t. destruct body as [r'|].
           2:{ split; [discriminate|]. intros (_ & _ & _ & Hr & _). discriminate. }
           split.
           ++ intros H. injection H as <- <- <- <-. split; [reflexivity|]. split; [reflexivity|]. split; [exact Ek|]. split; [reflexivity|]. exists "gemini", segs. split; [exact E|]. split; [exact Hne|]. split; [reflexivity|]. left; split; reflexivity.
           ++ intros (_ & Hk & _ & Hr & t' & segs' & E' & _ & Hb & Hi). injection Hk as <-. injection Hr as <-.
              rewrite E in E'. apply shape_inj in E' as [<- <-]. subst b.
              destruct Hi as [[_ ->]|[Hi _]]; [reflexivity|discriminate].
        -- apply String.eqb_eq in Eo. subst t. destruct body as [r'|].
           2:{ split; [discriminate|]. intros (_ & _ & _ & Hr & _). discriminate. }
           split.
           ++ intros H. injection H as <- <- <- <-. split; [reflexivity|]. split; [reflexivity|]. split; [exact Ek|]. split; [reflexivity|]. exists "openai", segs. split; [exact E|]. split; [exact Hne|]. split; [reflexivity|]. right; split; reflexivity.
           ++ intros (_ & Hk & _ & Hr & t' & segs' & E' & _ & Hb & Hi). injection Hk as <-. injection Hr as <-.
              rewrite E in E'. apply shape_inj in E' as [<- <-]. subst b.
              destruct Hi as [[Hi _]|[_ ->]]; [discriminate|reflexivity].
        -- split; [discriminate|]. intros (_ & _ & _ & _ & t' & segs' & E' & _ & _ & Hi).
           rewrite E in E'. apply shape_inj in E' as [<- <-].
           apply String.eqb_neq in Eg, Eo. destruct Hi as [[Hi _]|[Hi _]]; contradiction.
    + destruct (handle_no_shape p key body Hn) as [->| ->];
        (split; [discriminate|]); intros (_ & _ & _ & _ & t & segs & E & _); exact (False_ind _ (Hn t segs E)).
  - split; [discriminate|]. intros [E _]. contradiction.
Qed.

Lemma handle_throws_spec : forall m p key body,
  handle m p key body = HThrows <->
  m = "POST" /\ (exists k, key = Some k /\ k <> EmptyString) /\ body = None /\
  exists t segs, pathParts p = t :: segs ++ ["v1"; "messages"] /\ segs <> [] /\
    (t = "gemini" \/ t = "openai").
Proof.
  intros m p key body. handle_cases m.
  - destruct (shape_or (pathParts p)) as [(t & segs & E)|Hn].
    + rewrite (handle_shape p key body t segs E).
      destruct (shape_segs_nonempty p t segs E) as [Ht Hs].
      assert (Ht' : String.eqb t EmptyString = false) by (apply String.eqb_neq; exact Ht).
      rewrite Ht'. simpl orb.
      destruct (String.eqb (join "/" segs) EmptyString) eqn:Ej.
      * split; [discriminate|]. intros (_ & _ & _ & t' & segs' & E' & Hne & _).
        rewrite E in E'. apply shape_inj in E' as [<- <-].
        apply (join_empty segs) in Ej; [contradiction|]. intros x Hx; apply Hs, Hx.
      * assert (Hne : segs <> []) by (intros ->; discriminate).
        destruct key as [k'|].
        2:{ split; [discriminate|]. intros (_ & (k & Hk & _) & _). discriminate. }
        destruct (String.eqb k' EmptyString) eqn:Ek.
        { split; [discriminate|]. intros (_ & (k & Hk & Hk') & _). injection Hk as <-.
          apply String.eqb_eq in Ek. contradiction. }
        apply String.eqb_neq in Ek.
        destruct (String.eqb t "gemini") eqn:Eg; [|destruct (String.eqb t "openai") eqn:Eo].
        -- apply String.eqb_eq in Eg. subst t. destruct body as [r'|].
           ++ split; [discriminate|]. intros (_ & _ & Hr & _). discriminate.
           ++ split; [intros _|reflexivity]. split; [reflexivity|]. split; [eauto|]. split; [reflexivity|].
              exists "gemini", segs. auto.
        -- apply String.eqb_eq in Eo. subst t. destruct body as [r'|].
           ++ split; [discriminate|]. intros (_ & _ & Hr & _). discriminate.
           ++ split; [intros _|reflexivity]. split; [reflexivity|]. split; [eauto|]. split; [reflexivity|].
              exists "openai", segs. auto.
        -- split; [discriminate|]. intros (_ & _ & _ & t' & segs' & E' & _ & Hi).
           rewrite E in E'. apply shape_inj in E' as [<- <-].
           apply String.eqb_neq in Eg, Eo. destruct Hi as [Hi|Hi]; contradiction.
    + destruct (handle_no_shape p key body Hn) as [->| ->];
        (split; [discriminate|]); intros (_ & _ & _ & t & segs & E & _); exact (False_ind _ (Hn t segs E)).
  - split; [discriminate|]. intros [E _]. contradiction.
Qed.

(** X13: [handle] forwards a request exactly when it is a POST with a non-empty [x-api-key], its path is [/type/segments.../v1/messages] with at least one segment and type [gemini] or [openai], and the request body parses as JSON; the base URL is the segments joined by [/] and the forwarded request is the parsed body. When everything but the body parse succeeds, [await request.clone().json()] throws. *)
Theorem handle_forward : forall m p key body,
  (forall impl b k r,
    handle m p key body = HForward impl b k r <->
    m = "POST" /\ key = Some k /\ k <> EmptyString /\ body = Some r /\
    exists t segs, pathParts p = t :: segs ++ ["v1"; "messages"] /\ segs <> [] /\
      b = join "/" segs /\
      (t = "gemini" /\ impl = PGemini \/ t = "openai" /\ impl = POpenAI)) /\
  (handle m p key body = HThrows <->
    m = "POST" /\ (exists k, key = Some k /\ k <> EmptyString) /\ body = None /\
    exists t segs, pathParts p = t :: segs ++ ["v1"; "messages"] /\ segs <> [] /\
      (t = "gemini" \/ t = "openai")).
Proof. intros m p key body. split; [intros; apply handle_forward_spec | apply handle_throws_spec]. Qed.

(** X14: [handle] answers 400 [Missing type or provider_url in path] exactly for a POST whose path has one segment before [/v1/messages]. *)
Theorem handle_missing_provider_url : forall m p key body,
  handle m p key body = HResponse 400 "Missing type or provider_url in path" <->
  m = "POST" /\ exists t, pathParts p = [t; "v1"; "messages"].
Proof.
  intros m p key body. handle_cases m.
  - destruct (shape_or (pathParts p)) as [(t & segs & E)|Hn].
    + rewrite (handle_shape p key body t segs E).
      destruct (shape_segs_nonempty p t segs E) as [Ht Hs].
      assert (Ht' : String.eqb t EmptyString = false) by (apply String.eqb_neq; exact Ht).
      rewrite Ht'. simpl orb.
      destruct segs as [|x segs].
      * split; [|reflexivity]. intros _. split; [reflexivity|]. exists t. exact E.
      * assert (Ej : String.eqb (join "/" (x :: segs)) EmptyString = false).
        { destruct (String.eqb (join "/" (x :: segs)) EmptyString) eqn:Ej; [|reflexivity].
          apply join_empty in Ej; [discriminate|]. intros y Hy; apply Hs, Hy. }
        rewrite Ej. split.
        -- destruct key as [k|]; [|discriminate].
           destruct (String.eqb k EmptyString); [discriminate|].
           destruct (String.eqb t "gemini"); [destruct body; discriminate|].
           destruct (String.eqb t "openai"); [destruct body|]; discriminate.
        -- intros (_ & t' & E'). rewrite E in E'. apply (f_equal (@List.length string)) in E'.
           simpl in E'. rewrite length_app in E'. simpl in E'. lia.
    + destruct (handle_no_shape p key body Hn) as [->| ->];
        (split; [discriminate|]); intros (_ & t & E); exact (False_ind _ (Hn t [] E)).
  - split; [discriminate|]. intros [E _]. contradiction.
Qed.

(** X15: [handle] answers 401 exactly for a POST with a well-formed path and no or an empty [x-api-key]; path errors are reported first. *)
Theorem handle_missing_key : forall m p key body,
  handle m p key body = HResponse 401 "Missing x-api-key header" <->
  m = "POST" /\ (key = None \/ key = Some EmptyString) /\
  exists t segs, pathParts p = t :: segs ++ ["v1"; "messages"] /\ segs <> [].
Proof.
  intros m p key body. handle_cases m.
  - destruct (shape_or (pathParts p)) as [(t & segs & E)|Hn].
    + rewrite (handle_shape p key body t segs E).
      destruct (shape_segs_nonempty p t segs E) as [Ht Hs].
      assert (Ht' : String.eqb t EmptyString = false) by (apply String.eqb_neq; exact Ht).
      rewrite Ht'. simpl orb.
      destruct segs as [|x segs].
      * split; [discriminate|]. intros (_ & _ & t' & segs' & E' & Hne).
        rewrite E in E'. apply shape_inj in E' as [<- <-]. contradiction.
      * assert (Ej : String.eqb (join "/" (x :: segs)) EmptyString = false).
        { destruct (String.eqb (join "/" (x :: segs)) EmptyString) eqn:Ej; [|reflexivity].
          apply join_empty in Ej; [discriminate|]. intros y Hy; apply Hs, Hy. }
        rewrite Ej.
        assert (Hshape : exists t' segs', pathParts p = t' :: segs' ++ ["v1"; "messages"] /\ segs' <> [])
          by (exists t, (x :: segs); split; [exact E|discriminate]).
        destruct key as [k|].
        -- destruct (String.eqb k EmptyString) eqn:Ek.
           ++ apply String.eqb_eq in Ek. subst k. split; [intros _|reflexivity]. auto.
           ++ apply String.eqb_neq in Ek. split.
              ** destruct (String.eqb t "gemini"); [destruct body; discriminate|].
                 destruct (String.eqb t "openai"); [destruct body|]; discriminate.
              ** intros (_ & [Hk|Hk] & _); [discriminate|]. injection Hk as ->. contradiction.
        -- split; [intros _|reflexivity]. auto.
    + destruct (handle_no_shape p key body Hn) as [->| ->];
        (split; [discriminate|]); intros (_ & _ & t & segs & E & _); exact (False_ind _ (Hn t segs E)).
  - split; [discriminate|]. intros [E _]. contradiction.
Qed.

Lemma substring_snoc : forall s c,
  substring (String.length s) 1 (s ++ String c EmptyString) = String c EmptyString.
Proof. induction s as [|d s IH]; intros c; simpl; [reflexivity|]. apply IH. Qed.

Lemma length_snoc : forall s c, String.length (s ++ String c EmptyString) = S (String.length s).
Proof. induction s as [|d s IH]; intros c; simpl; [reflexivity|]. rewrite IH. reflexivity. Qed.

Lemma endsWith_snoc : forall s c, endsWith (s ++ String c EmptyString) "/" = Ascii.eqb c slash.
Proof.
  intros s c. unfold endsWith. rewrite length_snoc. cbn [String.length].
  replace (S (String.length s) - 1) with (String.length s) by lia.
  rewrite substring_snoc. simpl. unfold slash. destruct (Ascii.eqb c "/"%char); reflexivity.
Qed.

Lemma string_snoc_cases : forall s, s = EmptyString \/ exists s' c, s = (s' ++ String c EmptyString)%string.
Proof.
  induction s as [|d s IH]; [left; reflexivity|right].
  destruct IH as [->|(s' & c & ->)].
  - exists EmptyString, d. reflexivity.
  - exists (String d s'), c. reflexivity.
Qed.

Lemma no_char_app : forall c x y, no_char c (x ++ y) = no_char c x && no_char c y.
Proof.
  induction x as [|d x IH]; intros y; simpl; [reflexivity|]. rewrite IH. apply andb_assoc.
Qed.

Lemma join_last : forall segs, segs <> [] ->
  exists pre, join "/" segs = (pre ++ last segs EmptyString)%string.
Proof.
  induction segs as [|x segs IH]; intros Hne; [contradiction|].
  destruct segs as [|y segs].
  - exists EmptyString. reflexivity.
  - destruct IH as [pre Ep]; [discriminate|].
    exists (x ++ "/" ++ pre)%string.
    change (join "/" (x :: y :: segs)) with (x ++ "/" ++ join "/" (y :: segs))%string.
    rewrite Ep, !string_app_assoc. reflexivity.
Qed.

Lemma last_in : forall (l : list string) d, l <> [] -> In (last l d) l.
Proof.
  induction l as [|x l IH]; intros d Hne; [contradiction|].
  destruct l as [|y l]; [left; reflexivity|]. right. apply IH. discriminate.
Qed.

Lemma endsWith_join : forall segs, segs <> [] ->
  (forall x, In x segs -> x <> EmptyString /\ no_char slash x = true) ->
  endsWith (join "/" segs) "/" = false.
Proof.
  intros segs Hne H. destruct (join_last segs Hne) as [pre Ep]. rewrite Ep.
  assert (Hl : In (last segs EmptyString) segs) by (apply last_in; exact Hne).
  destruct (H _ Hl) as [Hx Hc].
  destruct (string_snoc_cases (last segs EmptyString)) as [E|(s' & c & E)]; [contradiction|].
  rewrite E in Hc |- *. rewrite <- string_app_assoc, endsWith_snoc.
  rewrite no_char_app in Hc. apply andb_true_iff in Hc as [_ Hc]. simpl in Hc.
  destruct (Ascii.eqb c slash); [discriminate|reflexivity].
Qed.

(** X16: the forwarded base URL has no empty segment (so [https://host] becomes [https:/host]) and never ends in [/]: [buildUrl] adds exactly one [/] before the endpoint. *)
Theorem handle_forward_baseUrl : forall m p key body impl b k r,
  handle m p key body = HForward impl b k r ->
  (exists t, pathParts p = t :: split_char slash b ++ ["v1"; "messages"]) /\
  (forall s, In s (split_char slash b) -> s <> EmptyString) /\
  (forall endpoint, buildUrl b endpoint = (b ++ "/" ++ endpoint)%string).
Proof.
  intros m p key body impl b k r H.
  apply handle_forward_spec in H as (_ & _ & _ & _ & t & segs & E & Hne & -> & _).
  destruct (shape_segs_nonempty p t segs E) as [_ Hs].
  rewrite split_char_join by (exact Hne || (intros x Hx; apply Hs, Hx)).
  split; [exists t; exact E|]. split; [intros s Hx; apply Hs, Hx|].
  intros endpoint. unfold buildUrl. rewrite endsWith_join by assumption.
  simpl negb. cbv iota. apply string_app_assoc.
Qed.

(** X17: [buildUrl] with an empty endpoint normalises the base: building on it gives the same URL as building on the base. *)
Theorem buildUrl_base_normal : forall b e, buildUrl (buildUrl b EmptyString) e = buildUrl b e.
Proof.
  intros b e. unfold buildUrl at 2. unfold buildUrl at 2.
  destruct (endsWith b "/") eqn:Eb; simpl negb; cbv iota; rewrite string_app_nil_r.
  - unfold buildUrl. rewrite Eb. reflexivity.
  - unfold buildUrl. change "/" with (String slash EmptyString) at 1.
    rewrite endsWith_snoc, Ascii.eqb_refl. reflexivity.
Qed.

Section NormalResponseProofs.

Variable random_id : nat -> string.
Variable Msg : Type.
Variable parse_json : string -> option json.
Variable est : Estimator Msg.
Variable estimateClaudeContent : list ContentBlock -> nat.

Lemma tool_use_blocks_some : forall tcs,
  (forall tc, In tc tcs -> ntc_function tc <> None) ->
  tool_use_blocks parse_json tcs =
  Some (flat_map (fun tc => match ntc_function tc with Some f => [tool_block parse_json tc f] | None => [] end) tcs).
Proof.
  induction tcs as [|tc tcs IH]; intros H; [reflexivity|]. simpl.
  rewrite IH by (intros x Hx; apply H; right; exact Hx).
  destruct (ntc_function tc) as [f|] eqn:E; [reflexivity|].
  exfalso. exact (H tc (or_introl eq_refl) E).
Qed.


(** X10: when the first choice has [tool_calls] (even an empty list) and each has a [function], the response is the optional text block followed by one [tool_use] block per call, with [stop_reason] [tool_use]. *)
Theorem convertNormalResponse_tool_calls : forall rng c rest u req m tcs,
  nmessage c = Some m -> nmsg_tool_calls m = Some tcs ->
  (forall tc, In tc tcs -> ntc_function tc <> None) ->
  exists resp,
    convertNormalResponse random_id Msg parse_json est estimateClaudeContent rng (Some {| nchoices := Some (c :: rest); nusage := u |}) req = Some (S rng, resp) /\
    cr_content resp =
      text_block m ++
      flat_map (fun tc => match ntc_function tc with Some f => [tool_block parse_json tc f] | None => [] end) tcs /\
    stop_reason resp = Some "tool_use".
Proof.
  intros rng c rest u req m tcs Hm Ht Hf. unfold convertNormalResponse. simpl.
  rewrite Hm, Ht, tool_use_blocks_some by exact Hf.
  lazymatch goal with |- context [let '(_, _) := ?M in _] => destruct M end.
  eexists. split; [reflexivity|]. split; reflexivity.
Qed.


(** X12: the usage of a non-streamed response: the upstream counts when [completion_tokens] is set and non-zero, the estimates when there is no usage and the request is known, and the upstream prompt count with an estimated output when usage is present without a non-zero [completion_tokens] and the content is non-empty. *)
Theorem convertNormalResponse_usage : forall rng data req rng' resp,
  convertNormalResponse random_id Msg parse_json est estimateClaudeContent rng (Some data) req = Some (rng', resp) ->
  (forall u n, nusage data = Some u -> completion_tokens u = Some n -> n <> 0 ->
     cr_usage resp = {| input_tokens := or_zero (prompt_tokens u); output_tokens := n |}) /\
  (forall r, nusage data = None -> req = Some r ->
     cr_usage resp = {| input_tokens := estimateMessages est (messages r);
                        output_tokens := estimateClaudeContent (cr_content resp) |}) /\
  (forall u, nusage data = Some u -> or_zero (completion_tokens u) = 0 -> cr_content resp <> [] ->
     cr_usage resp = {| input_tokens := or_zero (prompt_tokens u);
                        output_tokens := estimateClaudeContent (cr_content resp) |}).
Proof.
  intros rng data req rng' resp H. unfold convertNormalResponse in H. simpl in H.
  destruct (choice_content parse_json (nchoices data)) as [[content stop]|]; [|discriminate].
  repeat split.
  - intros u n Hu Hc Hn. rewrite Hu, Hc in H. apply Nat.eqb_neq in Hn. simpl in H.
    rewrite Hn in H. simpl in H. injection H as <- <-. reflexivity.
  - intros r Hu Hr. rewrite Hu, Hr in H. simpl in H. injection H as <- <-. reflexivity.
  - intros u Hu Hc Hne. rewrite Hu in H.
    destruct (completion_tokens u) as [n|]; simpl in Hc; [subst n|];
      destruct content as [|b content]; simpl in H; injection H as <- <-; simpl in Hne |- *;
      solve [reflexivity | exfalso; apply Hne; reflexivity].
Qed.

End NormalResponseProofs.

Lemma cleanJsonSchema_no_dropped_keys_witness :
  cleanJsonSchema (JObj [("type", JStr "object"); ("title", JStr "T");
                         ("properties", JObj [("title", JObj [("type", JStr "string")]);
                                              ("n", JObj [("type", JStr "number")])])]) =
  JObj [("type", JStr "object"); ("properties", JObj [("n", JObj [("type", JStr "number")])])] /\
  ~ In "title" (map fst [("n", JObj [("type", JStr "number")])]).
Proof.
  split; [vm_compute; reflexivity|].
  apply (proj2 (cleanJsonSchema_no_dropped_keys
    (JObj [("type", JStr "object"); ("title", JStr "T");
           ("properties", JObj [("title", JObj [("type", JStr "string")]);
                                ("n", JObj [("type", JStr "number")])])])
    [("type", JStr "object"); ("properties", JObj [("n", JObj [("type", JStr "number")])])]
    ltac:(vm_compute; reflexivity))
    [("n", JObj [("type", JStr "number")])] ltac:(vm_compute; reflexivity) "title").
  vm_compute. reflexivity.
Defined.

Lemma cleanJsonSchema_arrays_kept_witness :
  In ("anyOf", JArr [JObj [("title", JStr "A")]])
     (members (cleanJsonSchema (JObj [("type", JStr "object"); ("anyOf", JArr [JObj [("title", JStr "A")]])]))).
Proof.
  apply (cleanJsonSchema_arrays_kept [("type", JStr "object"); ("anyOf", JArr [JObj [("title", JStr "A")]])]
           "anyOf" [JObj [("title", JStr "A")]]).
  - simpl. right. left. reflexivity.
  - vm_compute. reflexivity.
  - discriminate.
  - discriminate.
Defined.

Lemma convertNormalResponse_tool_calls_witness :
  exists resp,
    convertNormalResponse ex_random_id nat ex_parse_json ex_estimator (fun cs => length cs) 0
      (Some {| nchoices := Some [{| nmessage := Some {| nmsg_content := Some "hi";
                                                  nmsg_tool_calls := Some [{| ntc_id := "call_1";
                                                     ntc_function := Some {| nfn_name := "f"; nfn_arguments := "{}" |} |}] |};
                              finish_reason := Some "tool_calls" |}];
         nusage := None |}) None = Some (1, resp) /\
    stop_reason resp = Some "tool_use".
Proof.
  destruct (convertNormalResponse_tool_calls ex_random_id nat ex_parse_json ex_estimator (fun cs => length cs) 0
    {| nmessage := Some {| nmsg_content := Some "hi";
                           nmsg_tool_calls := Some [{| ntc_id := "call_1";
                              ntc_function := Some {| nfn_name := "f"; nfn_arguments := "{}" |} |}] |};
       finish_reason := Some "tool_calls" |} [] None None
    {| nmsg_content := Some "hi";
       nmsg_tool_calls := Some [{| ntc_id := "call_1";
          ntc_function := Some {| nfn_name := "f"; nfn_arguments := "{}" |} |}] |}
    [{| ntc_id := "call_1"; ntc_function := Some {| nfn_name := "f"; nfn_arguments := "{}" |} |}]
    eq_refl eq_refl ltac:(intros tc [<-|[]]; discriminate)) as (resp & H1 & _ & H3).
  exists resp. split; [exact H1|exact H3].
Defined.

Lemma convertNormalResponse_usage_witness :
  exists resp,
    convertNormalResponse ex_random_id nat ex_parse_json ex_estimator (fun cs => length cs) 0
      (Some {| nchoices := Some [{| nmessage := Some {| nmsg_content := Some "hi"; nmsg_tool_calls := None |};
                              finish_reason := Some "stop" |}];
         nusage := Some {| prompt_tokens := Some 10; completion_tokens := Some 5 |} |}) None = Some (1, resp) /\
    cr_usage resp = {| input_tokens := 10; output_tokens := 5 |}.
Proof.
  eexists. split; [reflexivity|].
  exact (proj1 (convertNormalResponse_usage ex_random_id nat ex_parse_json ex_estimator (fun cs => length cs) 0
    {| nchoices := Some [{| nmessage := Some {| nmsg_content := Some "hi"; nmsg_tool_calls := None |};
                            finish_reason := Some "stop" |}];
       nusage := Some {| prompt_tokens := Some 10; completion_tokens := Some 5 |} |} None 1 _
    ltac:(vm_compute; reflexivity))
    {| prompt_tokens := Some 10; completion_tokens := Some 5 |} 5 eq_refl eq_refl ltac:(discriminate)).
Defined.

Lemma handle_forward_baseUrl_witness :
  handle "POST" "/openai/https://api.x.com/v1/messages" (Some "k") (Some (JObj [])) =
    HForward POpenAI "https:/api.x.com" "k" (JObj []) /\
  buildUrl "https:/api.x.com" "chat/completions" = ("https:/api.x.com" ++ "/" ++ "chat/completions")%string.
Proof.
  split; [vm_compute; reflexivity|].
  exact (proj2 (proj2 (handle_forward_baseUrl "POST" "/openai/https://api.x.com/v1/messages" (Some "k")
    (Some (JObj [])) POpenAI "https:/api.x.com" "k" (JObj []) ltac:(vm_compute; reflexivity))) "chat/completions").
Defined.
